(** * TimeTrack: location-restricted attendance and its audit trail

    A shallow embedding of the schema, row-level-security policies,
    [check_location_restrictions] and the [audit_log_changes] trigger of
    [supabase/migrations/20250210134118_patient_lantern.sql], and the
    properties of them that the design document states. *)

From Stdlib Require Import ZArith NArith QArith List String Bool Lia.
Import ListNotations.
Local Open Scope string_scope.
Local Open Scope list_scope.
Local Open Scope Z_scope.

(** ** SQL values *)

(** A UUID is an opaque key; only equality is ever used on it. *)
Definition uuid := N.
Definition text := string.
Definition timestamptz := Z.
(** [DECIMAL]/[NUMERIC]: exact decimal numbers, here exact rationals. *)
Definition numeric := Q.
(** [INTEGER] *)
Definition int4 := Z.

(** SQL's three-valued logic: [None] is NULL (unknown). *)
Definition sqlbool := option bool.

Definition sql_and (a b : sqlbool) : sqlbool :=
  match a, b with
  | Some false, _ | _, Some false => Some false
  | Some true, Some true => Some true
  | _, _ => None
  end.

Definition sql_or (a b : sqlbool) : sqlbool :=
  match a, b with
  | Some true, _ | _, Some true => Some true
  | Some false, Some false => Some false
  | _, _ => None
  end.

(** [a = b] on nullable operands: NULL as soon as one side is NULL. *)
Definition sql_eq {A : Type} (eqb : A -> A -> bool) (a b : option A) : sqlbool :=
  match a, b with
  | Some x, Some y => Some (eqb x y)
  | _, _ => None
  end.

(** A [WHERE] clause, a [USING] qualification and a [WITH CHECK] expression
    all keep a row only when the condition is true: false and NULL drop it. *)
Definition is_true (b : sqlbool) : bool :=
  match b with Some true => true | _ => false end.

(** [EXISTS (SELECT 1 FROM t WHERE cond)]: never NULL. *)
Definition sql_exists {R : Type} (cond : R -> sqlbool) (t : list R) : bool :=
  existsb (fun r => is_true (cond r)) t.

(** ** Errors *)

Inductive error :=
| unique_violation              (* 23505 *)
| foreign_key_violation         (* 23503 *)
| check_violation               (* 23514 *)
| numeric_value_out_of_range    (* 22003 *)
| insufficient_privilege        (* 42501: new row violates row-level security policy *)
| undefined_object              (* 42704: unrecognized configuration parameter *)
| invalid_text_representation.  (* 22P02: invalid input syntax for type json *)

Inductive result (A : Type) :=
| Ok (a : A)
| Err (e : error).
Arguments Ok {A} a.
Arguments Err {A} e.

Definition bind {A B : Type} (m : result A) (k : A -> result B) : result B :=
  match m with
  | Ok a => k a
  | Err e => Err e
  end.

Notation "x <- m ;; k" := (bind m (fun x => k))
  (at level 61, m at next level, right associativity).
Notation "m ;;; k" := (bind m (fun _ => k))
  (at level 61, right associativity).

Definition guard (b : bool) (e : error) : result unit :=
  if b then Ok tt else Err e.

Definition is_ok {A : Type} (m : result A) : bool :=
  match m with Ok _ => true | Err _ => false end.

(** ** Tables *)

Module profiles.
Record row := mk {
  id : uuid;                       (* UUID PRIMARY KEY REFERENCES auth.users(id) ON DELETE CASCADE *)
  email : text;                    (* TEXT NOT NULL *)
  full_name : option text;
  role : text;                     (* TEXT NOT NULL DEFAULT 'employee' CHECK (role IN ('admin', 'employee')) *)
  employee_id : option text;       (* TEXT UNIQUE *)
  department : option text;
  created_at : option timestamptz;
  updated_at : option timestamptz
}.
End profiles.

Module time_entries.
Record row := mk {
  id : uuid;                       (* UUID PRIMARY KEY *)
  user_id : option uuid;           (* UUID REFERENCES profiles(id) ON DELETE CASCADE *)
  entry_type : text;               (* TEXT NOT NULL CHECK (entry_type IN ('clock_in', 'clock_out')) *)
  timestamp : option timestamptz;
  ip_address : option text;
  device_info : option text;       (* JSONB, opaque here *)
  latitude : option numeric;       (* DECIMAL(10, 8) *)
  longitude : option numeric;      (* DECIMAL(11, 8) *)
  notes : option text;
  created_at : option timestamptz
}.
End time_entries.

Module schedules.
Record row := mk {
  id : uuid;
  user_id : option uuid;           (* UUID REFERENCES profiles(id) ON DELETE CASCADE *)
  start_time : timestamptz;        (* TIMESTAMPTZ NOT NULL *)
  end_time : timestamptz;          (* TIMESTAMPTZ NOT NULL *)
  created_by : option uuid;        (* UUID REFERENCES profiles(id) *)
  created_at : option timestamptz;
  updated_at : option timestamptz
}.
End schedules.

Module ip_whitelist.
Record row := mk {
  id : uuid;
  ip_address : text;               (* TEXT NOT NULL UNIQUE *)
  description : option text;
  created_by : option uuid;        (* UUID REFERENCES profiles(id) *)
  created_at : option timestamptz;
  updated_at : option timestamptz
}.
End ip_whitelist.

Module geo_fences.
Record row := mk {
  id : uuid;
  name : text;                     (* TEXT NOT NULL *)
  latitude : numeric;              (* DECIMAL(10, 8) NOT NULL *)
  longitude : numeric;             (* DECIMAL(11, 8) NOT NULL *)
  radius : int4;                   (* INTEGER NOT NULL, in meters *)
  created_by : option uuid;        (* UUID REFERENCES profiles(id) *)
  created_at : option timestamptz;
  updated_at : option timestamptz
}.
End geo_fences.

(** The five tables that carry an audit trigger. *)
Inductive table :=
| t_profiles | t_time_entries | t_schedules | t_ip_whitelist | t_geo_fences.

(** A row of any of them: what [OLD] and [NEW] range over. *)
Inductive row :=
| Profile (r : profiles.row)
| TimeEntry (r : time_entries.row)
| Schedule (r : schedules.row)
| IpWhitelist (r : ip_whitelist.row)
| GeoFence (r : geo_fences.row).

(** [row_to_json(r)]: a JSON object with one member per column.  It
    determines the row, and is kept as the row it renders. *)
Definition jsonb := row.
Definition row_to_json (r : row) : jsonb := r.

Module audit_logs.
Record row := mk {
  id : uuid;                       (* UUID PRIMARY KEY DEFAULT gen_random_uuid() *)
  user_id : option uuid;           (* UUID REFERENCES profiles(id) *)
  action : text;                   (* TEXT NOT NULL *)
  table_name : option text;
  record_id : option uuid;
  old_data : option jsonb;
  new_data : option jsonb;
  ip_address : option text;
  created_at : option timestamptz  (* TIMESTAMPTZ DEFAULT now() *)
}.
End audit_logs.

(** The store.  [auth_users] stands for the ids of [auth.users], which
    [profiles.id] references. *)
Record db := mk_db {
  auth_users : list uuid;
  profiles : list profiles.row;
  time_entries : list time_entries.row;
  schedules : list schedules.row;
  audit_logs : list audit_logs.row;
  ip_whitelist : list ip_whitelist.row;
  geo_fences : list geo_fences.row
}.

(** The schema as the migration leaves it: every table empty. *)
Definition empty_db : db := mk_db [] [] [] [] [] [] [].

(** ** Geometric types

    [point] and [circle] hold [float8] coordinates in PostgreSQL; the
    [DECIMAL] and [INTEGER] operands are cast to them.  The embedding keeps
    the operands exact, so [<@] is the containment of plane geometry: the
    distance from the point to the centre is at most the radius. *)

Record point_t := mk_point { px : Q; py : Q }.
Record circle_t := mk_circle { center : point_t; cradius : Q }.

(** [point(x, y)] and [circle(p, r)] are strict: NULL on a NULL argument. *)
Definition point (x y : option Q) : option point_t :=
  match x, y with
  | Some x, Some y => Some (mk_point x y)
  | _, _ => None
  end.

Definition circle (c : option point_t) (r : option Q) : option circle_t :=
  match c, r with
  | Some c, Some r => Some (mk_circle c r)
  | _, _ => None
  end.

(** Square of the distance between two points. *)
Definition point_dt2 (a b : point_t) : Q :=
  ((px a - px b) * (px a - px b) + (py a - py b) * (py a - py b))%Q.

(** [p <@ c]: [point_dt(center, p) <= radius].  The distance is a square
    root, so the test is [0 <= radius] and the comparison of the squares. *)
Definition pt_contained_circle (p : option point_t) (c : option circle_t) : sqlbool :=
  match p, c with
  | Some p, Some c =>
      Some (Qle_bool 0 (cradius c)
            && Qle_bool (point_dt2 (center c) p) (cradius c * cradius c))
  | _, _ => None
  end.

Notation "p <@ c" := (pt_contained_circle p c) (at level 70, no associativity).

(** ** check_location_restrictions *)

(** [SELECT EXISTS (SELECT 1 FROM ip_whitelist WHERE ip_address = p_ip_address)] *)
Definition v_ip_allowed (d : db) (p_ip_address : option text) : bool :=
  sql_exists
    (fun w => sql_eq String.eqb (Some (ip_whitelist.ip_address w)) p_ip_address)
    (ip_whitelist d).

(** [SELECT EXISTS (SELECT 1 FROM geo_fences WHERE
      point(longitude, latitude) <@ circle(point(p_longitude, p_latitude), radius))] *)
Definition v_geo_allowed (d : db) (p_latitude p_longitude : option numeric) : bool :=
  sql_exists
    (fun g =>
       point (Some (geo_fences.longitude g)) (Some (geo_fences.latitude g))
       <@ circle (point p_longitude p_latitude)
                 (Some (inject_Z (geo_fences.radius g))))
    (geo_fences d).

(** The function is [SECURITY DEFINER]: it reads both tables whoever calls. *)
Definition check_location_restrictions
    (d : db) (p_latitude p_longitude : option numeric) (p_ip_address : option text)
  : sqlbool :=
  sql_and (Some (v_ip_allowed d p_ip_address))
          (Some (v_geo_allowed d p_latitude p_longitude)).

(** ** The request context *)

(** A JSON value as [->>] sees it: [null], a string, or anything else with
    the text that renders it. *)
Inductive json :=
| JNull
| JString (s : text)
| JOther (rendered : text).

(** A JSON document: an object with its members in input order (type [json]
    keeps duplicate keys), or a scalar or an array. *)
Inductive json_doc :=
| JObject (members : list (text * json))
| JNotObject.

(** The text of a run-time setting, by what the cast [::json] makes of it. *)
Inductive setting :=
| NotJson
| Json (doc : json_doc).

Record session := mk_session {
  (** [auth.uid()]: the authenticated principal, NULL when there is none. *)
  auth_uid : option uuid;
  (** [current_setting(name)]: the settings that are set. *)
  settings : text -> option setting;
  (** Row security applies to the session's role: not to the owner of the
      tables (the migration does not [FORCE] it) nor to a role that
      bypasses it. *)
  row_security : bool;
  (** The role the session runs as, for policies restricted [TO] a role. *)
  current_role : text;
  (** [now()] *)
  now : timestamptz;
  (** [gen_random_uuid()]: the value the generator yields, given the ids
      it has already put in the audit trail. *)
  gen_random_uuid : list uuid -> uuid
}.

(** [current_setting(name)], without [missing_ok]: an error when the
    setting is not set. *)
Definition current_setting (s : session) (name : text) : result setting :=
  match settings s name with
  | Some v => Ok v
  | None => Err undefined_object
  end.

(** [v::json] *)
Definition json_in (v : setting) : result json_doc :=
  match v with
  | Json doc => Ok doc
  | NotJson => Err invalid_text_representation
  end.

(** The last member with the given key is the operative one. *)
Fixpoint json_object_field (members : list (text * json)) (key : text) : option json :=
  match members with
  | [] => None
  | (k, v) :: rest =>
      match json_object_field rest key with
      | Some v' => Some v'
      | None => if String.eqb k key then Some v else None
      end
  end.

(** [doc ->> key]: the member as text; NULL when the document is not an
    object, has no such member, or the member is [null]. *)
Definition json_get_text (doc : json_doc) (key : text) : option text :=
  match doc with
  | JNotObject => None
  | JObject members =>
      match json_object_field members key with
      | None | Some JNull => None
      | Some (JString s) => Some s
      | Some (JOther t) => Some t
      end
  end.

(** ** Row events and the trigger function *)

Inductive operation := INSERT | UPDATE | DELETE.

(** One row of a protected table inserted, updated or deleted. *)
Inductive row_event :=
| Inserted (new : row)
| Updated (old new : row)
| Deleted (old : row).

Definition table_of (r : row) : table :=
  match r with
  | Profile _ => t_profiles
  | TimeEntry _ => t_time_entries
  | Schedule _ => t_schedules
  | IpWhitelist _ => t_ip_whitelist
  | GeoFence _ => t_geo_fences
  end.

Definition row_id (r : row) : uuid :=
  match r with
  | Profile r => profiles.id r
  | TimeEntry r => time_entries.id r
  | Schedule r => schedules.id r
  | IpWhitelist r => ip_whitelist.id r
  | GeoFence r => geo_fences.id r
  end.

Definition table_name_of (t : table) : text :=
  match t with
  | t_profiles => "profiles"
  | t_time_entries => "time_entries"
  | t_schedules => "schedules"
  | t_ip_whitelist => "ip_whitelist"
  | t_geo_fences => "geo_fences"
  end.

Definition op_of (ev : row_event) : operation :=
  match ev with
  | Inserted _ => INSERT
  | Updated _ _ => UPDATE
  | Deleted _ => DELETE
  end.

Definition rel_of (ev : row_event) : table :=
  match ev with
  | Inserted new => table_of new
  | Updated old _ => table_of old
  | Deleted old => table_of old
  end.

(** The special variables of a row-level trigger. *)
Definition TG_OP (ev : row_event) : text :=
  match op_of ev with
  | INSERT => "INSERT"
  | UPDATE => "UPDATE"
  | DELETE => "DELETE"
  end.

Definition TG_TABLE_NAME (ev : row_event) : text := table_name_of (rel_of ev).

Definition OLD (ev : row_event) : option row :=
  match ev with
  | Inserted _ => None
  | Updated old _ => Some old
  | Deleted old => Some old
  end.

Definition NEW (ev : row_event) : option row :=
  match ev with
  | Inserted new => Some new
  | Updated _ new => Some new
  | Deleted _ => None
  end.

Definition COALESCE {A : Type} (a b : option A) : option A :=
  match a with
  | Some _ => a
  | None => b
  end.

(** [x IN (v1, ..., vn)] on text that is not NULL. *)
Definition text_in (x : text) (vs : list text) : bool :=
  existsb (String.eqb x) vs.

Definition with_audit_logs (l : list audit_logs.row) (d : db) : db :=
  mk_db (auth_users d) (profiles d) (time_entries d) (schedules d) l
        (ip_whitelist d) (geo_fences d).

Definition has_profile (d : db) (u : uuid) : bool :=
  existsb (fun p => N.eqb (profiles.id p) u) (profiles d).

(** [REFERENCES profiles(id)] on a nullable column: NULL references nothing. *)
Definition references_profile (d : db) (u : option uuid) : bool :=
  match u with
  | None => true
  | Some u => has_profile d u
  end.

(** [INSERT INTO audit_logs]: the primary key, then the reference of
    [user_id] to [profiles]. *)
Definition insert_audit_logs (a : audit_logs.row) (d : db) : result db :=
  guard (negb (existsb (fun x => N.eqb (audit_logs.id x) (audit_logs.id a))
                       (audit_logs d)))
        unique_violation ;;;
  guard (references_profile d (audit_logs.user_id a)) foreign_key_violation ;;;
  Ok (with_audit_logs (audit_logs d ++ [a]) d).

(** The [VALUES] row of [audit_log_changes()] for the row event [ev], with
    the request headers already read.  The columns [id] and [created_at],
    which the statement leaves out, take their defaults. *)
Definition audit_values (s : session) (ev : row_event) (d : db) (headers : json_doc)
  : audit_logs.row :=
  audit_logs.mk
    (gen_random_uuid s (map audit_logs.id (audit_logs d)))
    (auth_uid s)
    (TG_OP ev)
    (Some (TG_TABLE_NAME ev))
    (COALESCE (option_map row_id (NEW ev)) (option_map row_id (OLD ev)))
    (if String.eqb (TG_OP ev) "DELETE"
     then option_map row_to_json (OLD ev) else None)
    (if text_in (TG_OP ev) ["INSERT"; "UPDATE"]
     then option_map row_to_json (NEW ev) else None)
    (json_get_text headers "x-forwarded-for")
    (Some (now s)).

(** [audit_log_changes()], run for the row event [ev].  The function is
    [SECURITY DEFINER]: its insert runs as the owner of [audit_logs], past
    the row-level security of that table.  It has no exception handler: an
    error of any of its expressions, or of the insert, is the trigger's. *)
Definition audit_log_changes (s : session) (ev : row_event) (d : db) : result db :=
  headers <- current_setting s "request.headers" ;;
  headers <- json_in headers ;;
  insert_audit_logs (audit_values s ev d headers) d.

(** [CREATE TRIGGER name AFTER events ON rel FOR EACH ROW EXECUTE FUNCTION f()] *)
Record trigger := mk_trigger {
  tgname : text;
  tgevents : list operation;
  tgrel : table;
  tgfunction : session -> row_event -> db -> result db
}.

Definition triggers : list trigger :=
  [ mk_trigger "audit_profiles_changes" [INSERT; UPDATE; DELETE] t_profiles
      audit_log_changes;
    mk_trigger "audit_time_entries_changes" [INSERT; UPDATE; DELETE] t_time_entries
      audit_log_changes;
    mk_trigger "audit_schedules_changes" [INSERT; UPDATE; DELETE] t_schedules
      audit_log_changes;
    mk_trigger "audit_ip_whitelist_changes" [INSERT; UPDATE; DELETE] t_ip_whitelist
      audit_log_changes;
    mk_trigger "audit_geo_fences_changes" [INSERT; UPDATE; DELETE] t_geo_fences
      audit_log_changes ].

Definition operation_eqb (a b : operation) : bool :=
  match a, b with
  | INSERT, INSERT | UPDATE, UPDATE | DELETE, DELETE => true
  | _, _ => false
  end.

Definition table_eqb (a b : table) : bool :=
  match a, b with
  | t_profiles, t_profiles | t_time_entries, t_time_entries
  | t_schedules, t_schedules | t_ip_whitelist, t_ip_whitelist
  | t_geo_fences, t_geo_fences => true
  | _, _ => false
  end.

Definition fires_on (ev : row_event) (t : trigger) : bool :=
  table_eqb (tgrel t) (rel_of ev) && existsb (operation_eqb (op_of ev)) (tgevents t).

Fixpoint run_triggers (ts : list trigger) (s : session) (ev : row_event) (d : db)
  : result db :=
  match ts with
  | [] => Ok d
  | t :: rest => d' <- tgfunction t s ev d ;; run_triggers rest s ev d'
  end.

(** The row-level [AFTER] triggers of the event's table, run once the row
    change is in the store; an error any of them raises is the statement's. *)
Definition fire_after_row (s : session) (ev : row_event) (d : db) : result db :=
  run_triggers (filter (fires_on ev) triggers) s ev d.

(** ** The store under row changes *)

Definition with_profiles (l : list profiles.row) (d : db) : db :=
  mk_db (auth_users d) l (time_entries d) (schedules d) (audit_logs d)
        (ip_whitelist d) (geo_fences d).

Definition with_time_entries (l : list time_entries.row) (d : db) : db :=
  mk_db (auth_users d) (profiles d) l (schedules d) (audit_logs d)
        (ip_whitelist d) (geo_fences d).

Definition with_schedules (l : list schedules.row) (d : db) : db :=
  mk_db (auth_users d) (profiles d) (time_entries d) l (audit_logs d)
        (ip_whitelist d) (geo_fences d).

Definition with_ip_whitelist (l : list ip_whitelist.row) (d : db) : db :=
  mk_db (auth_users d) (profiles d) (time_entries d) (schedules d) (audit_logs d)
        l (geo_fences d).

Definition with_geo_fences (l : list geo_fences.row) (d : db) : db :=
  mk_db (auth_users d) (profiles d) (time_entries d) (schedules d) (audit_logs d)
        (ip_whitelist d) l.

(** The rows of a protected table, each as a [row]. *)
Definition rows (t : table) (d : db) : list row :=
  match t with
  | t_profiles => map Profile (profiles d)
  | t_time_entries => map TimeEntry (time_entries d)
  | t_schedules => map Schedule (schedules d)
  | t_ip_whitelist => map IpWhitelist (ip_whitelist d)
  | t_geo_fences => map GeoFence (geo_fences d)
  end.

(** The row with primary key [k]. *)
Definition lookup (t : table) (k : uuid) (d : db) : option row :=
  find (fun r => N.eqb (row_id r) k) (rows t d).

Definition replace_where {R : Type} (p : R -> bool) (r : R) (l : list R) : list R :=
  map (fun x => if p x then r else x) l.

Definition delete_where {R : Type} (p : R -> bool) (l : list R) : list R :=
  filter (fun x => negb (p x)) l.

Definition store_insert (r : row) (d : db) : db :=
  match r with
  | Profile r => with_profiles (profiles d ++ [r]) d
  | TimeEntry r => with_time_entries (time_entries d ++ [r]) d
  | Schedule r => with_schedules (schedules d ++ [r]) d
  | IpWhitelist r => with_ip_whitelist (ip_whitelist d ++ [r]) d
  | GeoFence r => with_geo_fences (geo_fences d ++ [r]) d
  end.

Definition store_update (k : uuid) (r : row) (d : db) : db :=
  match r with
  | Profile r =>
      with_profiles (replace_where (fun x => N.eqb (profiles.id x) k) r (profiles d)) d
  | TimeEntry r =>
      with_time_entries
        (replace_where (fun x => N.eqb (time_entries.id x) k) r (time_entries d)) d
  | Schedule r =>
      with_schedules (replace_where (fun x => N.eqb (schedules.id x) k) r (schedules d)) d
  | IpWhitelist r =>
      with_ip_whitelist
        (replace_where (fun x => N.eqb (ip_whitelist.id x) k) r (ip_whitelist d)) d
  | GeoFence r =>
      with_geo_fences
        (replace_where (fun x => N.eqb (geo_fences.id x) k) r (geo_fences d)) d
  end.

Definition store_delete (t : table) (k : uuid) (d : db) : db :=
  match t with
  | t_profiles =>
      with_profiles (delete_where (fun x => N.eqb (profiles.id x) k) (profiles d)) d
  | t_time_entries =>
      with_time_entries
        (delete_where (fun x => N.eqb (time_entries.id x) k) (time_entries d)) d
  | t_schedules =>
      with_schedules (delete_where (fun x => N.eqb (schedules.id x) k) (schedules d)) d
  | t_ip_whitelist =>
      with_ip_whitelist
        (delete_where (fun x => N.eqb (ip_whitelist.id x) k) (ip_whitelist d)) d
  | t_geo_fences =>
      with_geo_fences (delete_where (fun x => N.eqb (geo_fences.id x) k) (geo_fences d)) d
  end.

(** The change a row event makes to its table. *)
Definition apply_change (ev : row_event) (d : db) : db :=
  match ev with
  | Inserted new => store_insert new d
  | Updated old new => store_update (row_id old) new d
  | Deleted old => store_delete (table_of old) (row_id old) d
  end.

(** A row change and the triggers it fires. *)
Definition perform (s : session) (ev : row_event) (d : db) : result db :=
  fire_after_row s ev (apply_change ev d).

Fixpoint perform_all (s : session) (evs : list row_event) (d : db) : result db :=
  match evs with
  | [] => Ok d
  | ev :: rest => d' <- perform s ev d ;; perform_all s rest d'
  end.

(** ** Row-level security *)

Inductive command := cmd_SELECT | cmd_INSERT | cmd_UPDATE | cmd_DELETE | cmd_ALL.

Definition command_eqb (a b : command) : bool :=
  match a, b with
  | cmd_SELECT, cmd_SELECT | cmd_INSERT, cmd_INSERT | cmd_UPDATE, cmd_UPDATE
  | cmd_DELETE, cmd_DELETE | cmd_ALL, cmd_ALL => true
  | _, _ => false
  end.

(** A policy expression, over the session, the store and the row. *)
Definition expr := session -> db -> row -> sqlbool.

(** [CREATE POLICY name ON rel FOR cmd TO roles USING (qual) WITH CHECK (check)];
    no role listed is [PUBLIC]. *)
Record policy := mk_policy {
  polname : text;
  polrel : table;
  polcmd : command;
  polroles : list text;
  polqual : option expr;
  polwithcheck : option expr
}.

(** [auth.uid() = id], on [profiles]. *)
Definition uid_is_id : expr := fun s _ r =>
  match r with
  | Profile p => sql_eq N.eqb (auth_uid s) (Some (profiles.id p))
  | _ => None
  end.

(** [auth.uid() = user_id], on [time_entries] and [schedules]. *)
Definition uid_is_user_id : expr := fun s _ r =>
  match r with
  | TimeEntry e => sql_eq N.eqb (auth_uid s) (time_entries.user_id e)
  | Schedule c => sql_eq N.eqb (auth_uid s) (schedules.user_id c)
  | _ => None
  end.

(** [EXISTS (SELECT 1 FROM profiles WHERE id = auth.uid() AND role = 'admin')].
    The sub-select is evaluated on the rows of [profiles] as they are
    stored. *)
Definition uid_is_admin : expr := fun s d _ =>
  Some (sql_exists
          (fun p => sql_and (sql_eq N.eqb (Some (profiles.id p)) (auth_uid s))
                            (sql_eq String.eqb (Some (profiles.role p)) (Some "admin")))
          (profiles d)).

Definition always : expr := fun _ _ _ => Some true.

(** The policies of the five protected tables, in the order of the
    migration.  [audit_logs] has one more, for [SELECT] by admins; it has
    none for [INSERT]. *)

Definition policies : list policy :=
  [ mk_policy "Users can view their own profile" t_profiles cmd_SELECT []
      (Some uid_is_id) None;
    mk_policy "Admins can view all profiles" t_profiles cmd_SELECT []
      (Some uid_is_admin) None;
    mk_policy "Admins can insert profiles" t_profiles cmd_INSERT []
      None (Some uid_is_admin);
    mk_policy "Admins can update profiles" t_profiles cmd_UPDATE []
      (Some uid_is_admin) None;
    mk_policy "Users can view their own time entries" t_time_entries cmd_SELECT []
      (Some uid_is_user_id) None;
    mk_policy "Admins can view all time entries" t_time_entries cmd_SELECT []
      (Some uid_is_admin) None;
    mk_policy "Users can insert their own time entries" t_time_entries cmd_INSERT []
      None (Some uid_is_user_id);
    mk_policy "Users can view their own schedule" t_schedules cmd_SELECT []
      (Some uid_is_user_id) None;
    mk_policy "Admins can view all schedules" t_schedules cmd_SELECT []
      (Some uid_is_admin) None;
    mk_policy "Admins can manage schedules" t_schedules cmd_ALL []
      (Some uid_is_admin) None;
    mk_policy "Anyone can view IP whitelist" t_ip_whitelist cmd_SELECT ["authenticated"]
      (Some always) None;
    mk_policy "Admins can manage IP whitelist" t_ip_whitelist cmd_ALL []
      (Some uid_is_admin) None;
    mk_policy "Anyone can view geo fences" t_geo_fences cmd_SELECT ["authenticated"]
      (Some always) None;
    mk_policy "Admins can manage geo fences" t_geo_fences cmd_ALL []
      (Some uid_is_admin) None ].

(** The policies of table [t] that apply to command [c] for the session:
    those for [c] and those for [ALL]. *)
Definition applicable (s : session) (t : table) (c : command) (p : policy) : bool :=
  table_eqb (polrel p) t
  && (command_eqb (polcmd p) c || command_eqb (polcmd p) cmd_ALL)
  && match polroles p with
     | [] => true
     | rs => text_in (current_role s) rs
     end.

Definition holds (s : session) (d : db) (r : row) (e : option expr) : bool :=
  match e with
  | Some e => is_true (e s d r)
  | None => false
  end.

(** Policies are permissive: a row passes when one applicable policy's
    expression is true, and no applicable policy denies. *)

(** [USING]: the existing rows a command may touch; the others are
    skipped without an error. *)
Definition rls_using (s : session) (d : db) (c : command) (r : row) : bool :=
  negb (row_security s)
  || existsb (fun p => holds s d r (polqual p))
             (filter (applicable s (table_of r) c) policies).

(** [WITH CHECK]: the new rows a command may write; a policy without one
    checks its [USING] expression. *)
Definition rls_with_check (s : session) (d : db) (c : command) (r : row) : bool :=
  negb (row_security s)
  || existsb (fun p => holds s d r (match polwithcheck p with
                                   | Some e => Some e
                                   | None => polqual p
                                   end))
             (filter (applicable s (table_of r) c) policies).

(** ** Column types and constraints *)

(** The nearest integer, ties away from zero. *)
Definition round_half_away (q : Q) : Z :=
  let n := Qnum q in
  let d := Zpos (Qden q) in
  Z.sgn n * ((2 * Z.abs n + d) / (2 * d)).

(** A value stored in a [DECIMAL(precision, scale)] column: rounded to
    [scale] fractional digits, an error when it does not fit. *)
Definition numeric_typmod (precision scale : Z) (q : numeric) : result numeric :=
  let m := round_half_away (q * inject_Z (10 ^ scale)) in
  if Z.abs m <? 10 ^ precision
  then Ok (m # Z.to_pos (10 ^ scale))
  else Err numeric_value_out_of_range.

Definition numeric_typmod_opt (precision scale : Z) (q : option numeric)
  : result (option numeric) :=
  match q with
  | None => Ok None
  | Some q => q' <- numeric_typmod precision scale q ;; Ok (Some q')
  end.

(** A value stored in an [INTEGER] column. *)
Definition int4_in (z : Z) : result int4 :=
  if (- 2 ^ 31 <=? z) && (z <? 2 ^ 31) then Ok z else Err numeric_value_out_of_range.

(** The row as its table's column types store it. *)
Definition typed (r : row) : result row :=
  match r with
  | TimeEntry e =>
      lat <- numeric_typmod_opt 10 8 (time_entries.latitude e) ;;
      lon <- numeric_typmod_opt 11 8 (time_entries.longitude e) ;;
      Ok (TimeEntry
            (time_entries.mk (time_entries.id e) (time_entries.user_id e)
               (time_entries.entry_type e) (time_entries.timestamp e)
               (time_entries.ip_address e) (time_entries.device_info e)
               lat lon (time_entries.notes e) (time_entries.created_at e)))
  | GeoFence g =>
      lat <- numeric_typmod 10 8 (geo_fences.latitude g) ;;
      lon <- numeric_typmod 11 8 (geo_fences.longitude g) ;;
      rad <- int4_in (geo_fences.radius g) ;;
      Ok (GeoFence
            (geo_fences.mk (geo_fences.id g) (geo_fences.name g) lat lon rad
               (geo_fences.created_by g) (geo_fences.created_at g)
               (geo_fences.updated_at g)))
  | _ => Ok r
  end.

(** The [CHECK] constraints: on [profiles.role] and on
    [time_entries.entry_type]; no other column has one. *)
Definition check_constraints (r : row) : result unit :=
  match r with
  | Profile p => guard (text_in (profiles.role p) ["admin"; "employee"]) check_violation
  | TimeEntry e =>
      guard (text_in (time_entries.entry_type e) ["clock_in"; "clock_out"])
            check_violation
  | _ => Ok tt
  end.

(** [PRIMARY KEY]: no stored row of the table has the new row's [id]. *)
Definition primary_key (d : db) (r : row) : result unit :=
  guard (negb (existsb (fun x => N.eqb (row_id x) (row_id r)) (rows (table_of r) d)))
        unique_violation.

(** [UNIQUE] columns, against the rows with another [id]:
    [profiles.employee_id] (NULLs do not conflict) and
    [ip_whitelist.ip_address]. *)
Definition unique_columns (d : db) (r : row) : result unit :=
  match r with
  | Profile p =>
      guard (negb (existsb
                     (fun x => negb (N.eqb (profiles.id x) (profiles.id p))
                               && is_true (sql_eq String.eqb (profiles.employee_id x)
                                                  (profiles.employee_id p)))
                     (profiles d)))
            unique_violation
  | IpWhitelist w =>
      guard (negb (existsb
                     (fun x => negb (N.eqb (ip_whitelist.id x) (ip_whitelist.id w))
                               && String.eqb (ip_whitelist.ip_address x)
                                             (ip_whitelist.ip_address w))
                     (ip_whitelist d)))
            unique_violation
  | _ => Ok tt
  end.

(** The [REFERENCES] of the row's own columns. *)
Definition foreign_keys (d : db) (r : row) : result unit :=
  match r with
  | Profile p =>
      guard (existsb (N.eqb (profiles.id p)) (auth_users d)) foreign_key_violation
  | TimeEntry e =>
      guard (references_profile d (time_entries.user_id e)) foreign_key_violation
  | Schedule c =>
      guard (references_profile d (schedules.user_id c)
             && references_profile d (schedules.created_by c))
            foreign_key_violation
  | IpWhitelist w =>
      guard (references_profile d (ip_whitelist.created_by w)) foreign_key_violation
  | GeoFence g =>
      guard (references_profile d (geo_fences.created_by g)) foreign_key_violation
  end.

(** A row still references profile [k] through a column that does not
    cascade: [schedules.created_by], [audit_logs.user_id],
    [ip_whitelist.created_by], [geo_fences.created_by]. *)
Definition profile_referenced (d : db) (k : uuid) : bool :=
  existsb (fun x => is_true (sql_eq N.eqb (schedules.created_by x) (Some k)))
          (schedules d)
  || existsb (fun x => is_true (sql_eq N.eqb (audit_logs.user_id x) (Some k)))
             (audit_logs d)
  || existsb (fun x => is_true (sql_eq N.eqb (ip_whitelist.created_by x) (Some k)))
             (ip_whitelist d)
  || existsb (fun x => is_true (sql_eq N.eqb (geo_fences.created_by x) (Some k)))
             (geo_fences d).

(** The rows [ON DELETE CASCADE] removes with profile [k]: its time entries
    and its schedules. *)
Definition cascaded (d : db) (k : uuid) : list row_event :=
  map (fun e => Deleted (TimeEntry e))
      (filter (fun e => is_true (sql_eq N.eqb (time_entries.user_id e) (Some k)))
              (time_entries d))
  ++ map (fun c => Deleted (Schedule c))
         (filter (fun c => is_true (sql_eq N.eqb (schedules.user_id c) (Some k)))
                 (schedules d)).

(** ** Statements *)

(** Single-row statements on the protected tables:
    [INSERT INTO t VALUES (r)], with the defaults filled in;
    [UPDATE t SET (the other columns of r) WHERE id = r.id]; and
    [DELETE FROM t WHERE id = k]. *)
Inductive statement :=
| Insert (r : row)
| Update (r : row)
| Delete (t : table) (k : uuid).

(** The checks of a statement, in the order they are made: the column
    types, row-level security, the constraints.  The result is the row change
    the statement is to make; none when no row has the key or row-level
    security hides it. *)
Definition target (s : session) (d : db) (q : statement) : result (option row_event) :=
  match q with
  | Insert r =>
      r <- typed r ;;
      guard (rls_with_check s d cmd_INSERT r) insufficient_privilege ;;;
      check_constraints r ;;;
      primary_key d r ;;;
      unique_columns d r ;;;
      foreign_keys d r ;;;
      Ok (Some (Inserted r))
  | Update r =>
      match lookup (table_of r) (row_id r) d with
      | None => Ok None
      | Some old =>
          if rls_using s d cmd_UPDATE old then
            r <- typed r ;;
            guard (rls_with_check s d cmd_UPDATE r) insufficient_privilege ;;;
            check_constraints r ;;;
            unique_columns d r ;;;
            foreign_keys d r ;;;
            Ok (Some (Updated old r))
          else Ok None
      end
  | Delete t k =>
      match lookup t k d with
      | None => Ok None
      | Some old =>
          if rls_using s d cmd_DELETE old then Ok (Some (Deleted old)) else Ok None
      end
  end.

(** The row change [ev] put in the store, with what it cascades to.
    Deleting a profile removes its row, then the rows that cascade, each
    with its own triggers; the references that do not cascade are checked
    on what is left.  The result is the store on which the triggers of [ev]
    itself fire, and the cascaded row events. *)
Definition change (s : session) (ev : row_event) (d : db)
  : result (db * list row_event) :=
  match ev with
  | Deleted (Profile p) =>
      let children := cascaded d (profiles.id p) in
      d1 <- perform_all s children (apply_change ev d) ;;
      guard (negb (profile_referenced d1 (profiles.id p))) foreign_key_violation ;;;
      Ok (d1, children)
  | _ => Ok (apply_change ev d, [])
  end.

(** A statement gives the store it leaves and the row events it performed,
    in the order their triggers ran, or the error that aborts it. *)
Definition exec (s : session) (d : db) (q : statement) : result (db * list row_event) :=
  t <- target s d q ;;
  match t with
  | None => Ok (d, [])
  | Some ev =>
      c <- change s ev d ;;
      d2 <- fire_after_row s ev (fst c) ;;
      Ok (d2, snd c ++ [ev])
  end.

(** A statement in its own transaction: an error leaves the store as it
    was before the statement. *)
Definition run (s : session) (d : db) (q : statement)
  : db * result (list row_event) :=
  match exec s d q with
  | Ok (d', evs) => (d', Ok evs)
  | Err e => (d, Err e)
  end.

(** * Properties *)

(** ** The location authorizer *)

(** The design document's two sub-conditions, in its own words. *)

(** The ip is present in the whitelist. *)
Definition whitelisted (d : db) (ip : option text) : Prop :=
  exists w, In w (ip_whitelist d) /\ ip = Some (ip_whitelist.ip_address w).

(** Square of the planar distance, in degrees, from a fence's centre to the
    point at the given latitude and longitude. *)
Definition center_distance2 (g : geo_fences.row) (lat lon : Q) : Q :=
  ((geo_fences.longitude g - lon) * (geo_fences.longitude g - lon)
   + (geo_fences.latitude g - lat) * (geo_fences.latitude g - lat))%Q.

(** The point lies within the fence's radius of its centre:
    distance <= radius, with the distance a square root. *)
Definition within_radius (g : geo_fences.row) (lat lon : Q) : Prop :=
  (0 <= inject_Z (geo_fences.radius g)
   /\ center_distance2 g lat lon
      <= inject_Z (geo_fences.radius g) * inject_Z (geo_fences.radius g))%Q.

(** The point is given and falls within at least one fence. *)
Definition inside_a_fence (d : db) (lat lon : option numeric) : Prop :=
  exists g la lo,
    In g (geo_fences d) /\ lat = Some la /\ lon = Some lo /\ within_radius g la lo.

(** ** The audit trail *)

(** The row a row event is about: the new row, or the deleted one. *)
Definition subject (ev : row_event) : row :=
  match ev with
  | Inserted new => new
  | Updated _ new => new
  | Deleted old => old
  end.

(** The audit record [a] is the one of row event [ev] in session [s]. *)
Definition recorded (s : session) (ev : row_event) (a : audit_logs.row) : Prop :=
  audit_logs.user_id a = auth_uid s
  /\ audit_logs.action a = TG_OP ev
  /\ audit_logs.table_name a = Some (TG_TABLE_NAME ev)
  /\ audit_logs.record_id a = Some (row_id (subject ev)).

(** The row snapshots of the audit record [a] of row event [ev], as
    [audit_log_changes] takes them: the old row for [DELETE] only, the new
    row for [INSERT] and [UPDATE]. *)
Definition snapshot (ev : row_event) (a : audit_logs.row) : Prop :=
  match ev with
  | Inserted new =>
      audit_logs.old_data a = None /\ audit_logs.new_data a = Some (row_to_json new)
  | Updated _ new =>
      audit_logs.old_data a = None /\ audit_logs.new_data a = Some (row_to_json new)
  | Deleted old =>
      audit_logs.old_data a = Some (row_to_json old) /\ audit_logs.new_data a = None
  end.

(** The origin address of the audit record [a]: the [x-forwarded-for]
    member of the request headers of session [s]. *)
Definition origin (s : session) (a : audit_logs.row) : Prop :=
  exists h,
    settings s "request.headers" = Some (Json h)
    /\ audit_logs.ip_address a = json_get_text h "x-forwarded-for".

Definition audited (s : session) (ev : row_event) (a : audit_logs.row) : Prop :=
  recorded s ev a /\ snapshot ev a /\ origin s a.

(** The errors of reading the request headers. *)
Definition request_error (e : error) : Prop :=
  e = undefined_object \/ e = invalid_text_representation.


(** The record's key is not one of the trail of store [d]. *)
Definition new_key (d : db) (a : audit_logs.row) : Prop :=
  ~ In (audit_logs.id a) (map audit_logs.id (audit_logs d)).

(** The row events applied to the protected tables, in order. *)
Definition replay (evs : list row_event) (d : db) : db :=
  fold_left (fun d ev => apply_change ev d) evs d.

(** The rows that cascade from a profile: time entries and schedules. *)
Definition child_event (ev : row_event) : Prop :=
  match ev with
  | Deleted (TimeEntry _) | Deleted (Schedule _) => True
  | _ => False
  end.

Tactic Notation "inv_bind" hyp(H) "as" ident(x) :=
  match type of H with
  | bind ?m _ = _ =>
      let E := fresh "E" in
      destruct m as [x |] eqn:E; simpl in H; [| discriminate H]
  end.

Tactic Notation "inv_bind" hyp(H) "as" ident(x) "eqn" ident(E) :=
  match type of H with
  | bind ?m _ = _ => destruct m as [x |] eqn:E; simpl in H; [| discriminate H]
  end.

Ltac inv_guard H :=
  match type of H with
  | bind (guard ?b _) _ = _ =>
      let E := fresh "G" in
      destruct b eqn:E; simpl in H; [| discriminate H]
  end.

(** The store with another whitelist and other fences. *)
Definition with_policy_store
    (w : list ip_whitelist.row) (g : list geo_fences.row) (d : db) : db :=
  with_ip_whitelist w (with_geo_fences g d).

Definition with_auth_users (l : list uuid) (d : db) : db :=
  mk_db l (profiles d) (time_entries d) (schedules d) (audit_logs d)
        (ip_whitelist d) (geo_fences d).

(** The stores the system can be in: the empty schema, and from there any
    number of sign-ups in [auth.users] and of statements, in any session,
    each in its own transaction. *)
Inductive reachable : db -> Prop :=
| reach_empty : reachable empty_db
| reach_sign_up (d : db) (u : uuid) :
    reachable d -> reachable (with_auth_users (u :: auth_users d) d)
| reach_run (s : session) (d : db) (q : statement) :
    reachable d -> reachable (fst (run s d q)).



(** ** Sample data: the policy of the design document's scenarios *)

Module Sample.

Definition admin : profiles.row :=
  profiles.mk 1%N "admin@example.com" None "admin" None None None None.

Definition employee : profiles.row :=
  profiles.mk 2%N "employee@example.com" None "employee" None None None None.

Definition office_ip : ip_whitelist.row :=
  ip_whitelist.mk 10%N "1.2.3.4" None (Some 1%N) None None.

Definition office : geo_fences.row :=
  geo_fences.mk 20%N "office" 10%Q 10%Q 500 (Some 1%N) None None.

(** whitelist = ["1.2.3.4"], fences = [{center: (10, 10), radius: 500}] *)
Definition store : db := mk_db [1%N; 2%N] [admin; employee] [] [] [] [office_ip] [office].

(** The same principals with an empty policy store. *)
Definition no_policy : db := mk_db [1%N; 2%N] [admin; employee] [] [] [] [] [].

Definition headers (forwarded_for : list (text * json)) (name : text) : option setting :=
  if String.eqb name "request.headers" then Some (Json (JObject forwarded_for)) else None.

Definition uuids (drawn : list uuid) : uuid := (1000 + N.of_nat (List.length drawn))%N.

(** A request of the employee, of the admin, and a session of the tables'
    owner with no request around it. *)
Definition as_employee : session :=
  mk_session (Some 2%N) (headers [("x-forwarded-for", JString "1.2.3.4")]) true
             "authenticated" 1700000000 uuids.

Definition as_admin : session :=
  mk_session (Some 1%N) (headers [("x-forwarded-for", JString "1.2.3.4")]) true
             "authenticated" 1700000000 uuids.

Definition as_owner : session :=
  mk_session None (fun _ => None) false "postgres" 1700000000 uuids.

(** A job of the tables' owner run through the API, with no
    [x-forwarded-for] among its request headers. *)
Definition as_job : session :=
  mk_session None (headers []) false "service_role" 1700000000 uuids.


(** The store after the sign-up of the admin, the owner's insert of the
    admin's profile and the admin's insert of the office's address. *)
Definition bootstrapped : db :=
  fst (run as_admin
           (fst (run as_job (with_auth_users (1%N :: auth_users empty_db) empty_db)
                     (Insert (Profile admin))))
           (Insert (IpWhitelist office_ip))).

(** The whitelist entry with another address, and a fence of radius 1
    around the same centre. *)
Definition moved_ip : ip_whitelist.row :=
  ip_whitelist.mk 10%N "5.6.7.8" None (Some 1%N) None None.


(** A fence with the radius of the design document's scenario E. *)
Definition inverted : geo_fences.row :=
  geo_fences.mk 22%N "inverted" 10%Q 10%Q (-1) (Some 1%N) None None.

(** A clock-in of the employee at (10.0, 10.0) from the given address. *)
Definition clock_in (owner : uuid) (ip : text) : time_entries.row :=
  time_entries.mk 30%N (Some owner) "clock_in" (Some 1700000000) (Some ip) None
                  (Some 10%Q) (Some 10%Q) None (Some 1700000000).

End Sample.

(** ** Further notions *)

(** The acting principal has a profile with role admin: the sub-select of
    the admin policies. *)
Definition admin_session (s : session) (d : db) : bool :=
  sql_exists
    (fun p => sql_and (sql_eq N.eqb (Some (profiles.id p)) (auth_uid s))
                      (sql_eq String.eqb (Some (profiles.role p)) (Some "admin")))
    (profiles d).

(** Statements run one after the other, each in its own session and its
    own transaction. *)
Fixpoint run_all (qs : list (session * statement)) (d : db) : db :=
  match qs with
  | [] => d
  | (s, q) :: rest => run_all rest (fst (run s d q))
  end.

(** The primary keys: no two rows of a table with the same [id]. *)
Definition keys_ok (d : db) : Prop :=
  (forall t, NoDup (map row_id (rows t d)))
  /\ NoDup (map audit_logs.id (audit_logs d)).


(** The columns of a row that reference [profiles(id)]: those that
    cascade when the profile is deleted, and those that do not. *)
Definition cascading_refs (r : row) : list (option uuid) :=
  match r with
  | TimeEntry e => [time_entries.user_id e]
  | Schedule c => [schedules.user_id c]
  | _ => []
  end.

Definition restricting_refs (r : row) : list (option uuid) :=
  match r with
  | Schedule c => [schedules.created_by c]
  | IpWhitelist w => [ip_whitelist.created_by w]
  | GeoFence g => [geo_fences.created_by g]
  | _ => []
  end.

(** Referential integrity: every row passes the references of its own
    columns, and every audit record names a profile or nobody. *)
Definition references_ok (d : db) : Prop :=
  (forall t x, In x (rows t d) -> foreign_keys d x = Ok tt)
  /\ Forall (fun a => references_profile d (audit_logs.user_id a) = true)
            (audit_logs d).




(** * The pages

    The components of [src/App.tsx], [src/layouts/AuthLayout.tsx],
    [src/layouts/DashboardLayout.tsx], [src/pages/Dashboard.tsx] and
    [src/pages/AdminPanel.tsx], as functions from what [useAuth] and
    [useLocation] give them to the element they return. *)

Module UI.

(** What [useAuth] gives: the signed-in user, or [null], and the user's
    profile, or [null]. *)
Record auth := mk_auth {
  user : option uuid;
  profile : option profiles.row
}.

(** [profile?.role] and [profile?.full_name]: [undefined] without a
    profile, and [null] for a column that is NULL. *)
Definition role (a : auth) : option text :=
  option_map profiles.role (profile a).

Definition full_name (a : auth) : option text :=
  match profile a with
  | Some p => profiles.full_name p
  | None => None
  end.

(** [x === 'admin'] on a string or [undefined]. *)
Definition strict_eq (x : option text) (y : text) : bool :=
  match x with
  | Some v => String.eqb v y
  | None => false
  end.

(** [x || y] on a string, [null] or [undefined]: the empty string is
    falsy too. *)
Definition or_else (x : option text) (y : text) : text :=
  match x with
  | Some v => if String.eqb v "" then y else v
  | None => y
  end.

Inductive icon := LayoutDashboard | Clock | Calendar | Settings.

Record item := mk_item {
  name : text;
  href : text;
  item_icon : icon
}.

(** A [Link] of the sidebar as rendered: its target and label, and whether
    it carries the classes of the current page. *)
Record link := mk_link {
  key : text;
  to : text;
  current : bool;
  label : text
}.

(** The pages of the route table.  The sources of [Login], [TimeEntry]
    and [Schedule] are not part of this development: they are leaves. *)
Inductive page := Login | Dashboard | TimeEntry | Schedule | AdminPanel.

Inductive element :=
| Navigate (target : text)                 (* <Navigate to=... replace /> *)
| Heading (title : text) (body : list text)  (* an h1 and the paragraphs under it *)
| Leaf (p : page)
| AuthFrame (title : text) (outlet : element)
| DashboardFrame (nav : list link) (outlet : element)
| Null.

(** [src/pages/AdminPanel.tsx] *)
Definition render_AdminPanel (a : auth) : element :=
  if negb (strict_eq (role a) "admin")
  then Navigate "/"
  else Heading "Admin Panel" [].

(** [src/pages/Dashboard.tsx] *)
Definition render_Dashboard (a : auth) : element :=
  Heading "Dashboard"
          [("Welcome back, " ++ or_else (full_name a) "User" ++ "!")%string].

(** [src/layouts/AuthLayout.tsx] *)
Definition AuthLayout (a : auth) (outlet : element) : element :=
  match user a with
  | Some _ => Navigate "/"
  | None => AuthFrame "TimeTrack" outlet
  end.

(** [src/layouts/DashboardLayout.tsx] *)
Definition navigation (a : auth) : list item :=
  [ mk_item "Dashboard" "/" LayoutDashboard;
    mk_item "Time Entry" "/time-entry" Clock;
    mk_item "Schedule" "/schedule" Calendar ]
  ++ (if strict_eq (role a) "admin"
      then [mk_item "Admin" "/admin" Settings]
      else []).

Definition render_item (pathname : text) (i : item) : link :=
  mk_link (name i) (href i) (String.eqb pathname (href i)) (name i).

Definition DashboardLayout (a : auth) (pathname : text) (outlet : element)
  : element :=
  match user a with
  | None => Navigate "/login"
  | Some _ => DashboardFrame (map (render_item pathname) (navigation a)) outlet
  end.

(** [src/App.tsx]: the route table, each route under its layout. *)
Inductive layout := UnderAuthLayout | UnderDashboardLayout.

Record route := mk_route {
  route_layout : layout;
  path : text;
  route_page : page
}.

Definition routes : list route :=
  [ mk_route UnderAuthLayout "/login" Login;
    mk_route UnderDashboardLayout "/" Dashboard;
    mk_route UnderDashboardLayout "/time-entry" TimeEntry;
    mk_route UnderDashboardLayout "/schedule" Schedule;
    mk_route UnderDashboardLayout "/admin" AdminPanel ].

Definition render_page (a : auth) (p : page) : element :=
  match p with
  | Dashboard => render_Dashboard a
  | AdminPanel => render_AdminPanel a
  | other => Leaf other
  end.

Definition render_route (a : auth) (pathname : text) (r : route) : element :=
  match route_layout r with
  | UnderAuthLayout => AuthLayout a (render_page a (route_page r))
  | UnderDashboardLayout => DashboardLayout a pathname (render_page a (route_page r))
  end.

(** [matchPath pattern pathname] is the router's matching of a location
    against the [path] of a route; where no route matches, [Routes]
    renders nothing. *)
Definition App (matchPath : text -> text -> bool) (a : auth) (pathname : text)
  : element :=
  match find (fun r => matchPath (path r) pathname) routes with
  | Some r => render_route a pathname r
  | None => Null
  end.

(** The router's matching as far as the route table needs it: a path
    matches itself, and no location matches two paths of the table. *)
Definition matching (matchPath : text -> text -> bool) : Prop :=
  (forall p, In p (map path routes) -> matchPath p p = true)
  /\ (forall p q l, In p (map path routes) -> In q (map path routes) ->
                    matchPath p l = true -> matchPath q l = true -> p = q).

(** Where a rendered [Navigate] sends the browser, if one is rendered. *)
Fixpoint redirect (e : element) : option text :=
  match e with
  | Navigate target => Some target
  | AuthFrame _ outlet => redirect outlet
  | DashboardFrame _ outlet => redirect outlet
  | _ => None
  end.

(** The location after the redirect, if any, of what is rendered at
    [pathname]. *)
Definition settle (matchPath : text -> text -> bool) (a : auth) (pathname : text)
  : text :=
  match redirect (App matchPath a pathname) with
  | Some target => target
  | None => pathname
  end.

(** The elements on the screen: an element and what its outlet holds. *)
Fixpoint shown (e : element) : list element :=
  e :: match e with
       | AuthFrame _ outlet => shown outlet
       | DashboardFrame _ outlet => shown outlet
       | _ => []
       end.


End UI.

(** [profiles.employee_id] is [UNIQUE]: no two profiles with the same
    employee id; profiles without one do not conflict. *)
Definition employee_ids_ok (d : db) : Prop :=
  forall p q e,
    In p (profiles d) -> In q (profiles d) ->
    profiles.employee_id p = Some e -> profiles.employee_id q = Some e ->
    p = q.


(** A profile with an employee id, and the store after its user's sign-up
    and the owner's insert of it. *)
Module Staff.

Definition clerk : profiles.row :=
  profiles.mk 3%N "clerk@example.com" (Some "") "employee" (Some "E-1") None None None.

Definition hired : db :=
  fst (run Sample.as_job (with_auth_users (3%N :: auth_users empty_db) empty_db)
           (Insert (Profile clerk))).

End Staff.
(** * Proofs *)

(** ** The location authorizer *)

Lemma center_distance2_sym (g : geo_fences.row) (la lo : Q) :
  (point_dt2 (mk_point lo la)
             (mk_point (geo_fences.longitude g) (geo_fences.latitude g))
   == center_distance2 g la lo)%Q.
Proof. unfold point_dt2, center_distance2; simpl; ring. Qed.

Lemma fence_contains_iff (g : geo_fences.row) (la lo : Q) :
  is_true (point (Some (geo_fences.longitude g)) (Some (geo_fences.latitude g))
           <@ circle (point (Some lo) (Some la))
                     (Some (inject_Z (geo_fences.radius g)))) = true
  <-> within_radius g la lo.
Proof.
  unfold within_radius; simpl.
  destruct (Qle_bool 0 (inject_Z (geo_fences.radius g))) eqn:Hr; simpl.
  - apply Qle_bool_iff in Hr.
    destruct (Qle_bool _ _) eqn:Hd; simpl.
    + apply Qle_bool_iff in Hd. rewrite center_distance2_sym in Hd. tauto.
    + split; [discriminate|]. intros [_ H].
      rewrite <- center_distance2_sym in H. apply Qle_bool_iff in H.
      congruence.
  - split; [discriminate|]. intros [H _]. apply Qle_bool_iff in H. congruence.
Qed.

Lemma v_ip_allowed_iff (d : db) (ip : option text) :
  v_ip_allowed d ip = true <-> whitelisted d ip.
Proof.
  unfold v_ip_allowed, sql_exists, whitelisted. rewrite existsb_exists.
  split.
  - intros (w & Hin & Hw). exists w. split; [exact Hin|].
    destruct ip as [ip|]; simpl in Hw; [|discriminate].
    destruct (String.eqb_spec (ip_whitelist.ip_address w) ip); [|discriminate].
    congruence.
  - intros (w & Hin & ->). exists w. split; [exact Hin|].
    simpl. now rewrite String.eqb_refl.
Qed.

Lemma v_geo_allowed_iff (d : db) (lat lon : option numeric) :
  v_geo_allowed d lat lon = true <-> inside_a_fence d lat lon.
Proof.
  unfold v_geo_allowed, sql_exists, inside_a_fence. rewrite existsb_exists.
  split.
  - intros (g & Hin & Hg).
    destruct lat as [la|], lon as [lo|]; try discriminate.
    exists g, la, lo. split; [exact Hin|]. split; [reflexivity|].
    split; [reflexivity|]. now apply fence_contains_iff.
  - intros (g & la & lo & Hin & -> & -> & Hw).
    exists g. split; [exact Hin|]. now apply fence_contains_iff.
Qed.

(** ** The audit trail *)

Lemma with_audit_logs_same (d : db) : with_audit_logs (audit_logs d) d = d.
Proof. destruct d; reflexivity. Qed.

Lemma with_audit_logs_twice (l l' : list audit_logs.row) (d : db) :
  with_audit_logs l (with_audit_logs l' d) = with_audit_logs l d.
Proof. reflexivity. Qed.

Lemma audit_logs_with_audit_logs (l : list audit_logs.row) (d : db) :
  audit_logs (with_audit_logs l d) = l.
Proof. reflexivity. Qed.

Lemma audit_logs_apply_change (ev : row_event) (d : db) :
  audit_logs (apply_change ev d) = audit_logs d.
Proof.
  destruct ev as [r | o r | o]; [destruct r | destruct r | destruct o]; reflexivity.
Qed.

Lemma apply_change_with_audit_logs (ev : row_event) (l : list audit_logs.row) (d : db) :
  apply_change ev (with_audit_logs l d) = with_audit_logs l (apply_change ev d).
Proof.
  destruct ev as [r | o r | o]; [destruct r | destruct r | destruct o]; reflexivity.
Qed.

Lemma replay_with_audit_logs (evs : list row_event) (l : list audit_logs.row) (d : db) :
  replay evs (with_audit_logs l d) = with_audit_logs l (replay evs d).
Proof.
  revert d; induction evs as [| ev evs IH]; intros d; simpl; [reflexivity |].
  rewrite apply_change_with_audit_logs. apply IH.
Qed.

Lemma replay_app (evs evs' : list row_event) (d : db) :
  replay (evs ++ evs') d = replay evs' (replay evs d).
Proof. apply fold_left_app. Qed.

(** Every row event of a protected table fires exactly its table's audit
    trigger. *)
Lemma triggers_of_event (ev : row_event) :
  exists name,
    filter (fires_on ev) triggers
    = [mk_trigger name [INSERT; UPDATE; DELETE] (rel_of ev) audit_log_changes].
Proof.
  destruct ev as [r | o r | o]; [destruct r | destruct o | destruct o];
    eexists; reflexivity.
Qed.

Lemma fire_after_row_audit (s : session) (ev : row_event) (d : db) :
  fire_after_row s ev d = audit_log_changes s ev d.
Proof.
  unfold fire_after_row. destruct (triggers_of_event ev) as [name ->].
  simpl. destruct (audit_log_changes s ev d); reflexivity.
Qed.

Lemma audit_values_audited (s : session) (ev : row_event) (d : db) (h : json_doc) :
  settings s "request.headers" = Some (Json h) ->
  audited s ev (audit_values s ev d h).
Proof.
  intros Hs. unfold audited, recorded, snapshot, origin, audit_values.
  split; [| split]; [| | exists h; split; [exact Hs | reflexivity]];
    destruct ev; simpl; repeat split.
Qed.

(** What a successful run of the trigger function does: one record
    appended, nothing else touched. *)
Lemma audit_log_changes_ok (s : session) (ev : row_event) (d d' : db) :
  audit_log_changes s ev d = Ok d' ->
  exists h,
    settings s "request.headers" = Some (Json h)
    /\ d' = with_audit_logs (audit_logs d ++ [audit_values s ev d h]) d
    /\ new_key d (audit_values s ev d h)
    /\ references_profile d (auth_uid s) = true.
Proof.
  unfold audit_log_changes, current_setting. intros H.
  destruct (settings s "request.headers") as [[| h] |]; simpl in H; try discriminate.
  unfold insert_audit_logs in H. inv_guard H. inv_guard H.
  injection H as <-. exists h. repeat split; trivial.
  intros Hin. apply in_map_iff in Hin. destruct Hin as (x & Hx & Hin).
  apply negb_true_iff in G. rewrite <- not_true_iff_false in G. apply G.
  apply existsb_exists. exists x. split; [exact Hin |].
  rewrite Hx. apply N.eqb_refl.
Qed.

Lemma new_key_weaken (d d' : db) (l : list audit_logs.row) (a : audit_logs.row) :
  new_key (with_audit_logs (audit_logs d ++ l) d') a -> new_key d a.
Proof.
  unfold new_key. rewrite audit_logs_with_audit_logs. intros H Hin. apply H.
  rewrite map_app. apply in_or_app. left; exact Hin.
Qed.

Lemma new_key_apply_change (ev : row_event) (d : db) (a : audit_logs.row) :
  new_key (apply_change ev d) a <-> new_key d a.
Proof. unfold new_key. rewrite audit_logs_apply_change. tauto. Qed.

Lemma perform_ok (s : session) (ev : row_event) (d d' : db) :
  perform s ev d = Ok d' ->
  exists a,
    d' = with_audit_logs (audit_logs d ++ [a]) (apply_change ev d)
    /\ audited s ev a
    /\ new_key d a.
Proof.
  unfold perform. rewrite fire_after_row_audit. intros H.
  apply audit_log_changes_ok in H. destruct H as (h & Hs & -> & Hfresh & _).
  apply new_key_apply_change in Hfresh. rewrite audit_logs_apply_change.
  exists (audit_values s ev (apply_change ev d) h).
  split; [reflexivity |]. split; [apply audit_values_audited; exact Hs | exact Hfresh].
Qed.

Lemma perform_all_ok (s : session) (evs : list row_event) (d d' : db) :
  perform_all s evs d = Ok d' ->
  exists recs,
    d' = with_audit_logs (audit_logs d ++ recs) (replay evs d)
    /\ Forall2 (audited s) evs recs
    /\ Forall (new_key d) recs.
Proof.
  revert d; induction evs as [| ev evs IH]; intros d H; simpl in H.
  - injection H as <-. exists []. rewrite app_nil_r, with_audit_logs_same.
    repeat split; constructor.
  - inv_bind H as d1. apply perform_ok in E. destruct E as (a & -> & Ha & Hfa).
    apply IH in H. destruct H as (recs & -> & Hrecs & Hfresh).
    exists (a :: recs). split; [| split].
    + rewrite audit_logs_with_audit_logs, replay_with_audit_logs, with_audit_logs_twice.
      rewrite <- app_assoc. reflexivity.
    + constructor; assumption.
    + constructor; [exact Hfa |].
      eapply Forall_impl; [| exact Hfresh]. intros r Hr.
      apply new_key_weaken in Hr. exact Hr.
Qed.

Lemma child_event_commutes (p : profiles.row) (ev : row_event) (d : db) :
  child_event ev ->
  apply_change ev (apply_change (Deleted (Profile p)) d)
  = apply_change (Deleted (Profile p)) (apply_change ev d).
Proof.
  destruct ev as [r | o r | o]; try contradiction.
  destruct o; try contradiction; intros _; reflexivity.
Qed.

Lemma replay_children (p : profiles.row) (evs : list row_event) (d : db) :
  Forall child_event evs ->
  replay evs (apply_change (Deleted (Profile p)) d)
  = apply_change (Deleted (Profile p)) (replay evs d).
Proof.
  intros H; revert d; induction H as [| ev evs Hev _ IH]; intros d.
  - reflexivity.
  - change (replay evs (apply_change ev (apply_change (Deleted (Profile p)) d))
            = apply_change (Deleted (Profile p)) (replay evs (apply_change ev d))).
    rewrite child_event_commutes by exact Hev. apply IH.
Qed.

Lemma cascaded_children (d : db) (k : uuid) : Forall child_event (cascaded d k).
Proof.
  unfold cascaded. apply Forall_app. split; apply Forall_forall; intros ev Hin;
    apply in_map_iff in Hin; destruct Hin as (x & <- & _); exact I.
Qed.

(** The store a row change leaves for its own triggers: the change and its
    cascades replayed, and one audit record for each cascaded row. *)
Lemma change_ok (s : session) (ev : row_event) (d d1 : db) (children : list row_event) :
  change s ev d = Ok (d1, children) ->
  exists recs,
    d1 = with_audit_logs (audit_logs d ++ recs) (apply_change ev (replay children d))
    /\ Forall2 (audited s) children recs
    /\ Forall (new_key d) recs.
Proof.
  assert (Hplain : Ok (apply_change ev d, @nil row_event) = Ok (d1, children) ->
                   exists recs,
                     d1 = with_audit_logs (audit_logs d ++ recs)
                            (apply_change ev (replay children d))
                     /\ Forall2 (audited s) children recs
                     /\ Forall (new_key d) recs).
  { intros H. injection H as <- <-. exists []. repeat split; try constructor.
    rewrite app_nil_r. simpl.
    rewrite <- (audit_logs_apply_change ev d). symmetry. apply with_audit_logs_same. }
  destruct ev as [r | o r | o]; try exact Hplain.
  destruct o as [p | | | |]; try exact Hplain. clear Hplain.
  unfold change. intros H. inv_bind H as d2. inv_guard H. injection H as <- <-.
  apply perform_all_ok in E. destruct E as (recs & -> & Hrecs & Hfresh).
  exists recs. split; [| split; [exact Hrecs |]].
  - rewrite audit_logs_apply_change.
    rewrite replay_children by apply cascaded_children. reflexivity.
  - eapply Forall_impl; [| exact Hfresh]. intros r Hr.
    apply new_key_apply_change in Hr. exact Hr.
Qed.

(** What a successful statement leaves: the row events it performed,
    replayed on the store, and one audit record appended for each. *)
Lemma exec_ok (s : session) (d : db) (q : statement) (d' : db) (evs : list row_event) :
  exec s d q = Ok (d', evs) ->
  exists recs,
    d' = with_audit_logs (audit_logs d ++ recs) (replay evs d)
    /\ Forall2 (audited s) evs recs
    /\ Forall (new_key d) recs.
Proof.
  unfold exec. intros H. inv_bind H as t. destruct t as [ev |].
  - inv_bind H as c. destruct c as [d1 children]. inv_bind H as d2.
    injection H as <- <-.
    apply change_ok in E0. destruct E0 as (recs & -> & Hrecs & Hfresh).
    simpl in E1. rewrite fire_after_row_audit in E1.
    apply audit_log_changes_ok in E1. destruct E1 as (h & Hs & -> & Hfa & _).
    rewrite audit_logs_with_audit_logs, with_audit_logs_twice.
    exists (recs ++ [audit_values s ev
                       (with_audit_logs (audit_logs d ++ recs)
                          (apply_change ev (replay children d))) h]).
    split; [| split].
    + rewrite replay_app, app_assoc. reflexivity.
    + apply Forall2_app; [exact Hrecs |].
      constructor; [apply audit_values_audited; exact Hs | constructor].
    + apply Forall_app. split; [exact Hfresh |]. constructor; [| constructor].
      apply new_key_weaken in Hfa. exact Hfa.
  - injection H as <- <-. exists []. rewrite app_nil_r, with_audit_logs_same.
    repeat split; constructor.
Qed.

Lemma typed_time_entry (e : time_entries.row) (r : row) :
  typed (TimeEntry e) = Ok r ->
  exists e',
    r = TimeEntry e'
    /\ time_entries.id e' = time_entries.id e
    /\ time_entries.user_id e' = time_entries.user_id e
    /\ time_entries.entry_type e' = time_entries.entry_type e.
Proof.
  simpl. intros H. inv_bind H as lat. inv_bind H as lon. injection H as <-.
  eexists. repeat split.
Qed.

(** An insert passes its checks exactly when the typed row passes each. *)
Lemma target_insert_iff (s : session) (d : db) (r : row) (t : option row_event) :
  target s d (Insert r) = Ok t
  <-> exists r',
      typed r = Ok r'
      /\ rls_with_check s d cmd_INSERT r' = true
      /\ check_constraints r' = Ok tt
      /\ primary_key d r' = Ok tt
      /\ unique_columns d r' = Ok tt
      /\ foreign_keys d r' = Ok tt
      /\ t = Some (Inserted r').
Proof.
  unfold target. split.
  - intros H. inv_bind H as r'. inv_guard H.
    inv_bind H as u1. inv_bind H as u2. inv_bind H as u3. inv_bind H as u4.
    injection H as <-. destruct u1, u2, u3, u4. exists r'. repeat split; trivial.
  - intros (r' & Hty & Hrls & Hck & Hpk & Huq & Hfk & ->).
    rewrite Hty. simpl. rewrite Hrls. simpl. rewrite Hck. simpl.
    rewrite Hpk. simpl. rewrite Huq. simpl. rewrite Hfk. reflexivity.
Qed.

Lemma target_insert (s : session) (d : db) (r : row) (t : option row_event) :
  target s d (Insert r) = Ok t ->
  exists r',
    typed r = Ok r' /\ t = Some (Inserted r')
    /\ rls_with_check s d cmd_INSERT r' = true.
Proof.
  intros H. apply target_insert_iff in H.
  destruct H as (r' & Ht & Hrls & _ & _ & _ & _ & ->).
  exists r'. repeat split; trivial.
Qed.


(** ** Statements, step by step *)

Lemma typed_table_of (r r' : row) :
  typed r = Ok r' -> table_of r' = table_of r /\ row_id r' = row_id r.
Proof.
  destruct r as [p | e | c | w | g]; simpl; intros H.
  - injection H as <-. split; reflexivity.
  - inv_bind H as lat. inv_bind H as lon. injection H as <-. split; reflexivity.
  - injection H as <-. split; reflexivity.
  - injection H as <-. split; reflexivity.
  - inv_bind H as lat. inv_bind H as lon. inv_bind H as rad. injection H as <-.
    split; reflexivity.
Qed.

Lemma lookup_some (t : table) (k : uuid) (d : db) (r : row) :
  lookup t k d = Some r -> In r (rows t d) /\ row_id r = k /\ table_of r = t.
Proof.
  unfold lookup. intros H. apply find_some in H. destruct H as [Hin Hk].
  apply N.eqb_eq in Hk. repeat split; trivial.
  destruct t; simpl in Hin; apply in_map_iff in Hin;
    destruct Hin as (x & <- & _); reflexivity.
Qed.

Lemma target_update (s : session) (d : db) (r : row) (ev : row_event) :
  target s d (Update r) = Ok (Some ev) ->
  exists old r',
    ev = Updated old r' /\ typed r = Ok r'
    /\ lookup (table_of r) (row_id r) d = Some old
    /\ rls_using s d cmd_UPDATE old = true
    /\ rls_with_check s d cmd_UPDATE r' = true
    /\ unique_columns d r' = Ok tt.
Proof.
  simpl. intros H.
  destruct (lookup (table_of r) (row_id r) d) as [old |]; [| discriminate].
  destruct (rls_using s d cmd_UPDATE old) eqn:Hu; [| discriminate].
  inv_bind H as r'. inv_guard H. inv_bind H as u1.
  destruct (unique_columns d r') as [[] |] eqn:Hq; simpl in H; [| discriminate].
  inv_bind H as u3. injection H as <-.
  exists old, r'. repeat split; trivial.
Qed.

Lemma target_delete (s : session) (d : db) (t : table) (k : uuid) (ev : row_event) :
  target s d (Delete t k) = Ok (Some ev) ->
  exists old,
    ev = Deleted old /\ lookup t k d = Some old
    /\ rls_using s d cmd_DELETE old = true.
Proof.
  simpl. intros H. destruct (lookup t k d) as [old |]; [| discriminate].
  destruct (rls_using s d cmd_DELETE old) eqn:Hu; [| discriminate].
  injection H as <-. exists old. repeat split; trivial.
Qed.

(** The steps of a statement that succeeds. *)
Lemma exec_steps (s : session) (d : db) (q : statement) (d' : db) (evs : list row_event) :
  exec s d q = Ok (d', evs) ->
  (target s d q = Ok None /\ d' = d /\ evs = [])
  \/ exists ev d1 children,
      target s d q = Ok (Some ev)
      /\ change s ev d = Ok (d1, children)
      /\ audit_log_changes s ev d1 = Ok d'
      /\ evs = children ++ [ev].
Proof.
  unfold exec. intros H. inv_bind H as t. destruct t as [ev |].
  - inv_bind H as c. destruct c as [d1 children]. inv_bind H as d2.
    injection H as <- <-. right. exists ev, d1, children.
    simpl in E1. rewrite fire_after_row_audit in E1. repeat split; trivial.
  - injection H as <- <-. left. repeat split; trivial.
Qed.

(** Only the deletion of a profile cascades, and to rows of the store. *)
Lemma change_children (s : session) (ev : row_event) (d d1 : db) (children : list row_event) :
  change s ev d = Ok (d1, children) ->
  (children = [] \/ exists p, ev = Deleted (Profile p))
  /\ Forall (fun c => exists old, c = Deleted old /\ In old (rows (table_of old) d))
            children.
Proof.
  assert (Hplain : Ok (apply_change ev d, @nil row_event) = Ok (d1, children) ->
    (children = [] \/ exists p, ev = Deleted (Profile p))
    /\ Forall (fun c => exists old, c = Deleted old /\ In old (rows (table_of old) d))
              children).
  { intros H. injection H as <- <-. split; [left; reflexivity | constructor]. }
  destruct ev as [r | o r | o]; try exact Hplain.
  destruct o as [p | | | |]; try exact Hplain. clear Hplain.
  unfold change. intros H. inv_bind H as d2. inv_guard H. injection H as <- <-.
  split; [right; exists p; reflexivity |].
  unfold cascaded. apply Forall_app. split; apply Forall_forall; intros c Hin;
    apply in_map_iff in Hin; destruct Hin as (x & <- & Hx);
    apply filter_In in Hx; destruct Hx as [Hx _]; eexists; (split; [reflexivity |]);
    simpl; apply in_map; exact Hx.
Qed.

Lemma rows_with_audit_logs (t : table) (l : list audit_logs.row) (d : db) :
  rows t (with_audit_logs l d) = rows t d.
Proof. destruct t; reflexivity. Qed.






Lemma Forall2_exists_r {A B : Type} (R : A -> B -> Prop) (l : list A) (l' : list B) :
  Forall2 R l l' -> Forall (fun x => exists y, In y l' /\ R x y) l.
Proof.
  induction 1 as [| x y l l' Hxy _ IH]; constructor.
  - exists y. split; [left; reflexivity | exact Hxy].
  - eapply Forall_impl; [| exact IH]. intros a (b & Hb & Hab).
    exists b. split; [right; exact Hb | exact Hab].
Qed.

Lemma perform_audit_failure (s : session) (ev : row_event) (d : db) (e : error) :
  audit_log_changes s ev (apply_change ev d) = Err e -> perform s ev d = Err e.
Proof. unfold perform. rewrite fire_after_row_audit. trivial. Qed.

Lemma run_ok (s : session) (d : db) (q : statement) (d' : db) (evs : list row_event) :
  run s d q = (d', Ok evs) <-> exec s d q = Ok (d', evs).
Proof.
  unfold run. destruct (exec s d q) as [[d2 evs2] | e]; split; intros H;
    try discriminate; injection H as <- <-; reflexivity.
Qed.

Lemma run_err (s : session) (d : db) (q : statement) (e : error) :
  exec s d q = Err e -> run s d q = (d, Err e).
Proof. unfold run. intros ->. reflexivity. Qed.

(** ** The errors a statement can raise *)

Lemma guard_err (b : bool) (e0 e : error) : guard b e0 = Err e -> e = e0.
Proof. destruct b; simpl; intros H; [discriminate | congruence]. Qed.

Lemma numeric_typmod_err (p sc : Z) (x : numeric) (e : error) :
  numeric_typmod p sc x = Err e -> e = numeric_value_out_of_range.
Proof.
  unfold numeric_typmod. destruct (_ <? _); intros H; [discriminate | congruence].
Qed.

Lemma numeric_typmod_opt_err (p sc : Z) (x : option numeric) (e : error) :
  numeric_typmod_opt p sc x = Err e -> e = numeric_value_out_of_range.
Proof.
  destruct x as [x |]; simpl; [| discriminate].
  destruct (numeric_typmod p sc x) eqn:E; simpl; [discriminate |].
  intros H. injection H as <-. eapply numeric_typmod_err; eassumption.
Qed.

Lemma int4_in_err (z : Z) (e : error) :
  int4_in z = Err e -> e = numeric_value_out_of_range.
Proof. unfold int4_in. destruct (_ && _); intros H; [discriminate | congruence]. Qed.

Ltac bind_err H :=
  repeat match type of H with
    | bind ?m _ = Err _ =>
        let E := fresh "E" in destruct m eqn:E; simpl in H
    end;
  try discriminate H;
  try (injection H as <-).

Lemma typed_err (r : row) (e : error) :
  typed r = Err e -> e = numeric_value_out_of_range.
Proof.
  destruct r; simpl; intros H; bind_err H;
    eauto using numeric_typmod_err, numeric_typmod_opt_err, int4_in_err.
Qed.

Lemma check_constraints_err (r : row) (e : error) :
  check_constraints r = Err e -> e = check_violation.
Proof. destruct r; simpl; intros H; try discriminate; eauto using guard_err. Qed.

Lemma primary_key_err (d : db) (r : row) (e : error) :
  primary_key d r = Err e -> e = unique_violation.
Proof. apply guard_err. Qed.

Lemma unique_columns_err (d : db) (r : row) (e : error) :
  unique_columns d r = Err e -> e = unique_violation.
Proof. destruct r; simpl; intros H; try discriminate; eauto using guard_err. Qed.

Lemma foreign_keys_err (d : db) (r : row) (e : error) :
  foreign_keys d r = Err e -> e = foreign_key_violation.
Proof. destruct r; simpl; intros H; eauto using guard_err. Qed.

(** The checks of a statement never fail on the request headers. *)
Lemma target_err (s : session) (d : db) (q : statement) (e : error) :
  target s d q = Err e -> ~ request_error e.
Proof.
  assert (Hno : forall e0, In e0 [numeric_value_out_of_range; insufficient_privilege;
                                  check_violation; unique_violation;
                                  foreign_key_violation] ->
                           ~ request_error e0).
  { intros e0 Hin [-> | ->]; simpl in Hin; intuition discriminate. }
  destruct q as [r | r | t k]; simpl; intros H.
  - bind_err H; apply Hno;
      [ apply foreign_keys_err in E4 | apply unique_columns_err in E3
      | apply primary_key_err in E2 | apply check_constraints_err in E1
      | apply guard_err in E0 | apply typed_err in E ];
      subst; simpl; tauto.
  - destruct (lookup _ _ _); [| discriminate].
    destruct (rls_using _ _ _ _); [| discriminate].
    bind_err H; apply Hno;
      [ apply foreign_keys_err in E3 | apply unique_columns_err in E2
      | apply check_constraints_err in E1
      | apply guard_err in E0 | apply typed_err in E ];
      subst; simpl; tauto.
  - destruct (lookup _ _ _); [| discriminate].
    destruct (rls_using _ _ _ _); discriminate.
Qed.

(** With the request headers set and well-formed, the trigger function
    fails on the key of the record or on the reference of [user_id] only. *)
Lemma audit_log_changes_err (s : session) (ev : row_event) (d : db) (h : json_doc)
    (e : error) :
  settings s "request.headers" = Some (Json h) ->
  audit_log_changes s ev d = Err e ->
  ~ request_error e.
Proof.
  unfold audit_log_changes, current_setting. intros -> H. simpl in H.
  unfold insert_audit_logs in H. bind_err H;
    [apply guard_err in E0 | apply guard_err in E]; subst;
    intros [? | ?]; discriminate.
Qed.

Lemma perform_all_err (s : session) (evs : list row_event) (d : db) (h : json_doc)
    (e : error) :
  settings s "request.headers" = Some (Json h) ->
  perform_all s evs d = Err e ->
  ~ request_error e.
Proof.
  intros Hs. revert d. induction evs as [| ev evs IH]; intros d H; simpl in H.
  - discriminate.
  - destruct (perform s ev d) as [d1 |] eqn:E; simpl in H.
    + eapply IH; eassumption.
    + injection H as <-. unfold perform in E. rewrite fire_after_row_audit in E.
      eapply audit_log_changes_err; eassumption.
Qed.

Lemma change_err (s : session) (ev : row_event) (d : db) (h : json_doc) (e : error) :
  settings s "request.headers" = Some (Json h) ->
  change s ev d = Err e ->
  ~ request_error e.
Proof.
  intros Hs.
  destruct ev as [r | o r | o]; try discriminate.
  destruct o as [p | | | |]; try discriminate.
  unfold change. intros H. bind_err H.
  - apply guard_err in E0. subst. intros [? | ?]; discriminate.
  - eapply perform_all_err; eassumption.
Qed.

Lemma exec_err (s : session) (d : db) (q : statement) (h : json_doc) (e : error) :
  settings s "request.headers" = Some (Json h) ->
  exec s d q = Err e ->
  ~ request_error e.
Proof.
  intros Hs. unfold exec. intros H.
  destruct (target s d q) as [[ev |] |] eqn:Ht; simpl in H.
  - bind_err H.
    + rewrite fire_after_row_audit in E0. eapply audit_log_changes_err; eassumption.
    + eapply change_err; eassumption.
  - discriminate.
  - injection H as <-. eapply target_err; eassumption.
Qed.

(** ** Row-level security, table by table *)

Lemma rls_insert_time_entry (s : session) (d : db) (e : time_entries.row) :
  rls_with_check s d cmd_INSERT (TimeEntry e)
  = negb (row_security s)
    || is_true (sql_eq N.eqb (auth_uid s) (time_entries.user_id e)).
Proof. unfold rls_with_check. simpl. now rewrite orb_false_r. Qed.

Lemma sql_eq_uuid_true (a b : option uuid) :
  is_true (sql_eq N.eqb a b) = true <-> a = b /\ a <> None.
Proof.
  destruct a as [a |], b as [b |]; simpl; try (split; [discriminate | intros [H H']; congruence]).
  destruct (N.eqb_spec a b); simpl; split; try discriminate.
  - intros _. subst. split; [reflexivity | discriminate].
  - intros _. reflexivity.
  - intros [H _]. congruence.
Qed.



(** An insert into [time_entries] reads neither the whitelist nor the
    fences. *)
Lemma exec_insert_time_entry_policy_store
    (s : session) (d : db) (e : time_entries.row)
    (w : list ip_whitelist.row) (g : list geo_fences.row) :
  exec s (with_policy_store w g d) (Insert (TimeEntry e))
  = match exec s d (Insert (TimeEntry e)) with
    | Ok (d', evs) => Ok (with_policy_store w g d', evs)
    | Err err => Err err
    end.
Proof.
  unfold exec, target.
  destruct (typed (TimeEntry e)) as [r' |] eqn:Ht; simpl; [| reflexivity].
  apply typed_time_entry in Ht. destruct Ht as (e' & -> & _).
  rewrite !rls_insert_time_entry.
  destruct (negb (row_security s) || _); simpl; [| reflexivity].
  destruct (guard _ check_violation); simpl; [| reflexivity].
  change (primary_key (with_policy_store w g d) (TimeEntry e'))
    with (primary_key d (TimeEntry e')).
  destruct (primary_key d (TimeEntry e')); simpl; [| reflexivity].
  change (references_profile (with_policy_store w g d))
    with (references_profile d).
  destruct (guard (references_profile d (time_entries.user_id e')) _); simpl;
    [| reflexivity].
  rewrite !fire_after_row_audit. unfold audit_log_changes, current_setting.
  destruct (settings s "request.headers") as [[| h] |]; simpl; try reflexivity.
  unfold insert_audit_logs. simpl.
  destruct (existsb _ (audit_logs d)); simpl; [reflexivity |].
  change (references_profile (with_time_entries _ (with_policy_store w g d)))
    with (references_profile d).
  change (references_profile (with_time_entries (time_entries d ++ [e']) d))
    with (references_profile d).
  destruct (references_profile d (auth_uid s)); reflexivity.
Qed.

(** ** The keys of the whitelist *)

Lemma delete_where_keys {R K : Type} (key : R -> K) (gone : R -> bool) (t : list R) :
  NoDup (map key t) -> NoDup (map key (delete_where gone t)).
Proof.
  unfold delete_where. intros Hkeys. induction t as [| x t IH]; [exact Hkeys |].
  apply NoDup_cons_iff in Hkeys. destruct Hkeys as [Hx Ht]. simpl.
  destruct (gone x); simpl; [exact (IH Ht) |].
  apply NoDup_cons; [| exact (IH Ht)].
  intros Hin. apply in_map_iff in Hin. destruct Hin as (y & Hy & Hin).
  apply filter_In in Hin. apply Hx. apply in_map_iff. exists y. tauto.
Qed.


Lemma in_replace_where_inv {R : Type} (p : R -> bool) (r y : R) (l : list R) :
  In y (replace_where p r l) -> y = r \/ In y l.
Proof.
  unfold replace_where. intros H. apply in_map_iff in H.
  destruct H as (x & Hx & Hin). destruct (p x); subst; tauto.
Qed.





Lemma change_child_events (s : session) (ev : row_event) (d d1 : db)
    (children : list row_event) :
  change s ev d = Ok (d1, children) -> Forall child_event children.
Proof.
  assert (Hplain : Ok (apply_change ev d, @nil row_event) = Ok (d1, children) ->
                   Forall child_event children).
  { intros H. injection H as <- <-. constructor. }
  destruct ev as [r | o r | o]; try exact Hplain.
  destruct o as [p | | | |]; try exact Hplain. clear Hplain.
  unfold change. intros H. inv_bind H as d2. inv_guard H. injection H as <- <-.
  apply cascaded_children.
Qed.




(** * Theorems *)


(** The design document's scenarios for the authorizer: the address and the
    point both allowed; the address unknown; no policy at all; the point
    not given; the point outside the fence. *)
Example authorize_scenario_b :
  check_location_restrictions Sample.store (Some 10%Q) (Some 10%Q) (Some "1.2.3.4")
  = Some true.
Proof. reflexivity. Qed.

Example authorize_scenario_c :
  check_location_restrictions Sample.store (Some 10%Q) (Some 10%Q) (Some "9.9.9.9")
  = Some false.
Proof. reflexivity. Qed.

Example authorize_scenario_a :
  check_location_restrictions Sample.no_policy (Some 10%Q) (Some 10%Q) (Some "1.2.3.4")
  = Some false.
Proof. reflexivity. Qed.

Example authorize_without_point :
  check_location_restrictions Sample.store None None (Some "1.2.3.4") = Some false.
Proof. reflexivity. Qed.

Example authorize_outside_fence :
  check_location_restrictions Sample.store (Some 10%Q) (Some 511%Q) (Some "1.2.3.4")
  = Some false.
Proof. reflexivity. Qed.



(** C3.  A statement that succeeds leaves the protected tables as its row
    events make them and appends exactly one audit record for each row
    event, in the same order, each naming the event's operation, table and
    row.  An insert into [time_entries] that succeeds adds exactly one row
    and exactly one audit record, with action INSERT and table
    time_entries. *)
Theorem every_mutation_audited_once
    (s : session) (d : db) (q : statement) (d' : db) (evs : list row_event) :
  exec s d q = Ok (d', evs) ->
  (exists recs,
      d' = with_audit_logs (audit_logs d ++ recs) (replay evs d)
      /\ Forall2 (recorded s) evs recs
      /\ List.length recs = List.length evs)
  /\ (forall e, q = Insert (TimeEntry e) ->
      exists e' a,
        typed (TimeEntry e) = Ok (TimeEntry e')
        /\ evs = [Inserted (TimeEntry e')]
        /\ time_entries d' = time_entries d ++ [e']
        /\ audit_logs d' = audit_logs d ++ [a]
        /\ audit_logs.action a = "INSERT"
        /\ audit_logs.table_name a = Some "time_entries"
        /\ audit_logs.record_id a = Some (time_entries.id e)).
Proof.
  intros H. pose proof (exec_ok _ _ _ _ _ H) as (recs & Hd & Haud & _).
  assert (Hrecs : Forall2 (recorded s) evs recs).
  { eapply Forall2_impl; [| exact Haud]. intros ev a Ha. apply Ha. }
  split.
  - exists recs. repeat split; trivial.
    symmetry. eapply Forall2_length; eassumption.
  - intros e ->. unfold exec in H. inv_bind H as t.
    apply target_insert in E. destruct E as (r' & Ht & -> & _).
    pose proof (typed_time_entry _ _ Ht) as (e' & -> & Hid & _).
    simpl in H. inv_bind H as d2. injection H as <- <-.
    inversion Hrecs as [| ev a evs' recs' Ha Hnil]; subst.
    inversion Hnil; subst.
    destruct Ha as (_ & Hact & Htab & Hrid).
    exists e', a. repeat split; trivial.
    rewrite Hrid. simpl. now rewrite Hid.
Qed.

Lemma every_mutation_audited_once_witness :
  exists d' evs,
    exec Sample.as_employee Sample.store
         (Insert (TimeEntry (Sample.clock_in 2%N "1.2.3.4"))) = Ok (d', evs)
    /\ List.length (time_entries d') = 1%nat
    /\ exists recs,
        d' = with_audit_logs (audit_logs Sample.store ++ recs) (replay evs Sample.store)
        /\ Forall2 (recorded Sample.as_employee) evs recs
        /\ List.length recs = List.length evs.
Proof.
  eexists. eexists. split; [vm_compute; reflexivity |].
  split; [reflexivity |].
  apply (every_mutation_audited_once Sample.as_employee Sample.store
           (Insert (TimeEntry (Sample.clock_in 2%N "1.2.3.4")))).
  vm_compute; reflexivity.
Defined.

(** C2.  The audit record and the row change stand or fall together.  When
    [audit_log_changes] fails for the row a statement changes, or anything
    fails for a row that cascades from it, the statement fails with that
    error and the store is as it was before the statement; the same holds
    for every single row change, of any of the five tables and any of the
    three operations.  A statement that succeeds has, for every row event, a
    record in the trail that was not there before. *)
Theorem audit_failure_rolls_back (s : session) (d : db) (q : statement) :
  (forall ev d1 children e,
      target s d q = Ok (Some ev) ->
      change s ev d = Ok (d1, children) ->
      audit_log_changes s ev d1 = Err e ->
      run s d q = (d, Err e))
  /\ (forall ev e,
      target s d q = Ok (Some ev) ->
      change s ev d = Err e ->
      run s d q = (d, Err e))
  /\ (forall ev d0 e,
      audit_log_changes s ev (apply_change ev d0) = Err e ->
      perform s ev d0 = Err e)
  /\ (forall e, exec s d q = Err e -> run s d q = (d, Err e))
  /\ (forall d' evs,
      run s d q = (d', Ok evs) ->
      Forall (fun ev => exists a,
                  In a (audit_logs d') /\ ~ In a (audit_logs d) /\ audited s ev a)
             evs).
Proof.
  split; [| split; [| split; [| split]]].
  - intros ev d1 children e Ht Hc Ha. apply run_err.
    unfold exec. rewrite Ht. simpl. rewrite Hc. simpl.
    rewrite fire_after_row_audit, Ha. reflexivity.
  - intros ev e Ht Hc. apply run_err.
    unfold exec. rewrite Ht. simpl. rewrite Hc. reflexivity.
  - intros ev d0 e. apply perform_audit_failure.
  - intros e. apply run_err.
  - intros d' evs H. apply run_ok in H.
    apply exec_ok in H. destruct H as (recs & -> & Haud & Hfresh).
    apply Forall2_exists_r in Haud.
    eapply Forall_impl; [| exact Haud].
    intros ev (a & Hin & Ha). exists a. split; [| split; [| exact Ha]].
    + rewrite audit_logs_with_audit_logs. apply in_or_app. right; exact Hin.
    + rewrite Forall_forall in Hfresh. intros Hold. apply (Hfresh a Hin).
      apply in_map. exact Hold.
Qed.

(** A statement of the tables' owner outside any request: the
    [request.headers] setting is not set, the trigger function raises, and
    the whitelist is as before. *)
Lemma audit_failure_rolls_back_witness :
  run Sample.as_owner Sample.store (Update (IpWhitelist Sample.moved_ip))
  = (Sample.store, Err undefined_object).
Proof.
  eapply (proj1 (audit_failure_rolls_back Sample.as_owner Sample.store
                   (Update (IpWhitelist Sample.moved_ip)))).
  - vm_compute; reflexivity.
  - vm_compute; reflexivity.
  - vm_compute; reflexivity.
Defined.




(** C9, as the design document has it, fails when the [request.headers]
    setting itself is absent: [current_setting] raises, and with it the
    statement.  The tables' owner adds a whitelist entry outside any
    request; the same statement goes through, with a NULL origin, once the
    setting holds an object without the header. *)
Lemma unset_request_headers_fail_the_write :
  settings Sample.as_owner "request.headers" = None
  /\ run Sample.as_owner Sample.no_policy (Insert (IpWhitelist Sample.office_ip))
     = (Sample.no_policy, Err undefined_object)
  /\ snd (run Sample.as_job Sample.no_policy (Insert (IpWhitelist Sample.office_ip)))
     = Ok [Inserted (IpWhitelist Sample.office_ip)]
  /\ map audit_logs.ip_address
         (audit_logs (fst (run Sample.as_job Sample.no_policy
                               (Insert (IpWhitelist Sample.office_ip)))))
     = [None].
Proof. vm_compute. repeat split. Qed.

(** C9, amended.  When the [request.headers] setting holds a JSON document
    without an [x-forwarded-for] member, no statement fails on reading the
    origin, the trigger function fails on the key of its record or on the
    reference of [user_id] only, and every audit record a statement
    appends has a NULL [ip_address].  When the setting is not set, or is
    not JSON, no statement changes a row: one that succeeds has touched
    none. *)
Theorem forwarded_for_absent (s : session) (d : db) (q : statement) :
  (forall h,
      settings s "request.headers" = Some (Json h) ->
      json_get_text h "x-forwarded-for" = None ->
      (forall e, exec s d q = Err e -> ~ request_error e)
      /\ (forall ev d0,
             is_ok (audit_log_changes s ev d0)
             = negb (existsb
                       (fun x => N.eqb (audit_logs.id x)
                                       (gen_random_uuid s (map audit_logs.id (audit_logs d0))))
                       (audit_logs d0))
               && references_profile d0 (auth_uid s))
      /\ (forall d' evs,
             exec s d q = Ok (d', evs) ->
             exists recs,
               audit_logs d' = audit_logs d ++ recs
               /\ Forall2 (audited s) evs recs
               /\ Forall (fun a => audit_logs.ip_address a = None) recs))
  /\ ((forall h, settings s "request.headers" <> Some (Json h)) ->
      forall d' evs, exec s d q = Ok (d', evs) -> evs = [] /\ d' = d).
Proof.
  split.
  - intros h Hs Hnone. split; [| split].
    + intros e He. eapply exec_err; eassumption.
    + intros ev d0. unfold audit_log_changes, current_setting. rewrite Hs. simpl.
      unfold insert_audit_logs. simpl.
      destruct (existsb _ (audit_logs d0)); simpl; [reflexivity |].
      destruct (references_profile d0 (auth_uid s)); reflexivity.
    + intros d' evs H. apply exec_ok in H. destruct H as (recs & -> & Haud & _).
      exists recs. split; [reflexivity |]. split; [exact Haud |].
      clear - Haud Hs Hnone. induction Haud as [| ev a evs recs Ha _ IH]; constructor.
      * destruct Ha as (_ & _ & h' & Hs' & ->). congruence.
      * exact IH.
  - intros Hno d' evs H. apply exec_ok in H. destruct H as (recs & -> & Haud & _).
    destruct Haud as [| ev a evs recs Ha _].
    + rewrite app_nil_r. split; [reflexivity | apply with_audit_logs_same].
    + destruct Ha as (_ & _ & h & Hs & _). exfalso. exact (Hno h Hs).
Qed.

Lemma forwarded_for_absent_witness :
  exists d' evs,
    exec Sample.as_job Sample.no_policy (Insert (IpWhitelist Sample.office_ip))
    = Ok (d', evs)
    /\ exists recs,
        audit_logs d' = audit_logs Sample.no_policy ++ recs
        /\ Forall2 (audited Sample.as_job) evs recs
        /\ Forall (fun a => audit_logs.ip_address a = None) recs.
Proof.
  eexists. eexists. split; [vm_compute; reflexivity |].
  refine (proj2 (proj2 (proj1 (forwarded_for_absent Sample.as_job Sample.no_policy
                                 (Insert (IpWhitelist Sample.office_ip)))
                              (JObject []) _ _)) _ _ _);
    vm_compute; reflexivity.
Defined.

(** C7.  Under row-level security an insert into [time_entries] goes
    through only when [auth.uid()] is the row's [user_id], whatever the
    principal's role and whatever the store holds.  When it is another
    principal's, or NULL, the statement fails and leaves the store as it
    was: no row, no audit record; the error is that of the policy once the
    row's values fit their columns. *)
Theorem time_entry_insert_is_self_only (s : session) (d : db) (e : time_entries.row) :
  row_security s = true ->
  (forall d' evs,
      exec s d (Insert (TimeEntry e)) = Ok (d', evs) ->
      auth_uid s = time_entries.user_id e /\ auth_uid s <> None)
  /\ (auth_uid s <> time_entries.user_id e \/ auth_uid s = None ->
      exists err,
        run s d (Insert (TimeEntry e)) = (d, Err err)
        /\ (is_ok (typed (TimeEntry e)) = true -> err = insufficient_privilege)).
Proof.
  intros Hrs.
  assert (Hok : forall d' evs,
             exec s d (Insert (TimeEntry e)) = Ok (d', evs) ->
             auth_uid s = time_entries.user_id e /\ auth_uid s <> None).
  { intros d' evs H. unfold exec in H. inv_bind H as t.
    apply target_insert in E. destruct E as (r' & Ht & _ & Hrls).
    apply typed_time_entry in Ht. destruct Ht as (e' & -> & _ & Huser & _).
    rewrite rls_insert_time_entry, Hrs in Hrls. simpl in Hrls.
    apply sql_eq_uuid_true in Hrls. rewrite Huser in Hrls. exact Hrls. }
  split; [exact Hok |].
  intros Hother.
  destruct (exec s d (Insert (TimeEntry e))) as [[d' evs] |err] eqn:E.
  - exfalso. destruct (Hok d' evs eq_refl) as [Heq Hsome].
    destruct Hother as [Hne | Hnone]; [exact (Hne Heq) | exact (Hsome Hnone)].
  - exists err. split; [apply run_err; exact E |].
    intros Hty. unfold exec, target in E.
    destruct (typed (TimeEntry e)) as [r' |] eqn:Ht; [| discriminate Hty].
    simpl in E.
    pose proof (typed_time_entry _ _ Ht) as (e' & -> & _ & Huser & _).
    rewrite rls_insert_time_entry, Hrs in E. simpl in E.
    destruct (is_true (sql_eq N.eqb (auth_uid s) (time_entries.user_id e'))) eqn:Hq.
    + exfalso. apply sql_eq_uuid_true in Hq. rewrite Huser in Hq.
      destruct Hq as [Heq Hsome].
      destruct Hother as [Hne | Hnone]; [exact (Hne Heq) | exact (Hsome Hnone)].
    + simpl in E. congruence.
Qed.

(** The admin records a clock-in in the employee's name: refused, nothing
    written. *)
Lemma time_entry_insert_is_self_only_witness :
  row_security Sample.as_admin = true
  /\ auth_uid Sample.as_admin <> time_entries.user_id (Sample.clock_in 2%N "1.2.3.4")
  /\ exists err,
      run Sample.as_admin Sample.store (Insert (TimeEntry (Sample.clock_in 2%N "1.2.3.4")))
      = (Sample.store, Err err)
      /\ (is_ok (typed (TimeEntry (Sample.clock_in 2%N "1.2.3.4"))) = true ->
          err = insufficient_privilege).
Proof.
  assert (Hrs : row_security Sample.as_admin = true) by reflexivity.
  assert (Hne : auth_uid Sample.as_admin
                <> time_entries.user_id (Sample.clock_in 2%N "1.2.3.4"))
    by (simpl; discriminate).
  split; [exact Hrs |]. split; [exact Hne |].
  exact (proj2 (time_entry_insert_is_self_only Sample.as_admin Sample.store
                  (Sample.clock_in 2%N "1.2.3.4") Hrs)
               (or_introl Hne)).
Defined.

(** C4, as the design document has it, fails: nothing on the insert path
    calls [check_location_restrictions].  The employee clocks in from an
    address that is not in the whitelist; the authorizer returns false on
    the row's latitude, longitude and address, and the row is stored, with
    its audit record. *)
Lemma denied_location_is_persisted :
  check_location_restrictions Sample.store (Some 10%Q) (Some 10%Q) (Some "9.9.9.9")
  = Some false
  /\ map (fun e => (time_entries.latitude e, time_entries.longitude e,
                    time_entries.ip_address e))
         (time_entries (fst (run Sample.as_employee Sample.store
                                 (Insert (TimeEntry (Sample.clock_in 2%N "9.9.9.9"))))))
     = [(Some (1000000000 # 100000000), Some (1000000000 # 100000000), Some "9.9.9.9")]
  /\ map audit_logs.action
         (audit_logs (fst (run Sample.as_employee Sample.store
                               (Insert (TimeEntry (Sample.clock_in 2%N "9.9.9.9"))))))
     = ["INSERT"]
  /\ is_ok (snd (run Sample.as_employee Sample.store
                     (Insert (TimeEntry (Sample.clock_in 2%N "9.9.9.9"))))) = true.
Proof. vm_compute. repeat split. Qed.

(** C4, amended.  An insert into [time_entries] is accepted or rejected
    without the location authorizer: its outcome, and the store it leaves,
    are the same whatever the whitelist and the fences hold, so also with
    none, where the authorizer returns false on every input. *)
Theorem time_entry_insert_ignores_location
    (s : session) (d : db) (e : time_entries.row)
    (w : list ip_whitelist.row) (g : list geo_fences.row) :
  run s (with_policy_store w g d) (Insert (TimeEntry e))
  = (with_policy_store w g (fst (run s d (Insert (TimeEntry e)))),
     snd (run s d (Insert (TimeEntry e))))
  /\ check_location_restrictions (with_policy_store [] [] d)
       (time_entries.latitude e) (time_entries.longitude e) (time_entries.ip_address e)
     = Some false
  /\ is_ok (exec s (with_policy_store [] [] d) (Insert (TimeEntry e)))
     = is_ok (exec s d (Insert (TimeEntry e))).
Proof.
  split; [| split].
  - unfold run. rewrite exec_insert_time_entry_policy_store.
    destruct (exec s d (Insert (TimeEntry e))) as [[d' evs] | err]; reflexivity.
  - reflexivity.
  - rewrite exec_insert_time_entry_policy_store.
    destruct (exec s d (Insert (TimeEntry e))) as [[d' evs] | err]; reflexivity.
Qed.






(** * Further proofs *)

From Stdlib Require Import Lqa Qabs.
Local Open Scope Z_scope.

(** ** The tables as lists of rows *)

Lemma table_eqb_eq (a b : table) : table_eqb a b = true <-> a = b.
Proof. destruct a, b; simpl; split; congruence. Qed.

Lemma table_eqb_refl (a : table) : table_eqb a a = true.
Proof. destruct a; reflexivity. Qed.

Lemma rows_store_insert (t : table) (r : row) (d : db) :
  rows t (store_insert r d)
  = if table_eqb (table_of r) t then rows t d ++ [r] else rows t d.
Proof. destruct r, t; simpl; rewrite ?map_app; reflexivity. Qed.

Lemma map_replace_where {A B : Type} (f : A -> B) (p : A -> bool) (q : B -> bool)
    (r : A) (l : list A) :
  (forall x, q (f x) = p x) ->
  map f (replace_where p r l) = replace_where q (f r) (map f l).
Proof.
  intros Hq. unfold replace_where. rewrite !map_map. apply map_ext.
  intros x. rewrite Hq. destruct (p x); reflexivity.
Qed.

Lemma map_delete_where {A B : Type} (f : A -> B) (p : A -> bool) (q : B -> bool)
    (l : list A) :
  (forall x, q (f x) = p x) ->
  map f (delete_where p l) = delete_where q (map f l).
Proof.
  intros Hq. unfold delete_where. induction l as [| x l IH]; simpl; [reflexivity |].
  rewrite Hq. destruct (p x); simpl; rewrite IH; reflexivity.
Qed.

Lemma rows_store_update (t : table) (k : uuid) (r : row) (d : db) :
  rows t (store_update k r d)
  = if table_eqb (table_of r) t
    then replace_where (fun x => N.eqb (row_id x) k) r (rows t d)
    else rows t d.
Proof.
  destruct r, t; simpl; try reflexivity; apply map_replace_where; reflexivity.
Qed.

Lemma rows_store_delete (t t' : table) (k : uuid) (d : db) :
  rows t (store_delete t' k d)
  = if table_eqb t' t
    then delete_where (fun x => N.eqb (row_id x) k) (rows t d)
    else rows t d.
Proof.
  destruct t', t; simpl; try reflexivity; apply map_delete_where; reflexivity.
Qed.


(** ** Finding a row by its key *)

Lemma find_none_iff {A : Type} (p : A -> bool) (l : list A) :
  find p l = None <-> existsb p l = false.
Proof.
  induction l as [| x l IH]; simpl; [tauto |].
  destruct (p x); simpl; [split; discriminate | exact IH].
Qed.






(** What the statement of one row leaves in the store. *)
Lemma exec_single (s : session) (d : db) (q : statement) (d' : db) (evs : list row_event)
    (ev : row_event) :
  exec s d q = Ok (d', evs) ->
  target s d q = Ok (Some ev) ->
  (forall p, ev <> Deleted (Profile p)) ->
  exists a,
    d' = with_audit_logs (audit_logs d ++ [a]) (apply_change ev d)
    /\ evs = [ev] /\ audited s ev a /\ new_key d a.
Proof.
  intros H Ht Hev. unfold exec in H. rewrite Ht in H. simpl in H.
  assert (Hc : change s ev d = Ok (apply_change ev d, [])).
  { destruct ev as [r | o r | o]; try reflexivity.
    destruct o as [p | | | |]; try reflexivity. contradiction (Hev p). reflexivity. }
  rewrite Hc in H. simpl in H. inv_bind H as d2. injection H as <- <-.
  fold (perform s ev d) in E. apply perform_ok in E.
  destruct E as (a & -> & Ha & Hk). exists a. repeat split; trivial; apply Ha.
Qed.

Lemma primary_key_ok (d : db) (r : row) :
  primary_key d r = Ok tt <-> lookup (table_of r) (row_id r) d = None.
Proof.
  unfold primary_key, lookup. rewrite find_none_iff.
  destruct (existsb _ _); simpl; split; congruence.
Qed.


(** ** Where the rows of a store come from *)

Lemma rows_apply_change_origin (t : table) (ev : row_event) (d : db) (x : row) :
  In x (rows t (apply_change ev d)) -> In x (rows t d) \/ NEW ev = Some x.
Proof.
  destruct ev as [r | o r | o]; simpl.
  - rewrite rows_store_insert. destruct (table_eqb (table_of r) t); [| tauto].
    intros H. apply in_app_or in H. destruct H as [H | [<- | []]]; tauto.
  - rewrite rows_store_update. destruct (table_eqb (table_of r) t); [| tauto].
    intros H. apply in_replace_where_inv in H. destruct H as [-> | H]; tauto.
  - rewrite rows_store_delete. destruct (table_eqb (table_of o) t); [| tauto].
    unfold delete_where. intros H. apply filter_In in H. tauto.
Qed.

Lemma rows_replay_children (t : table) (evs : list row_event) (d : db) (x : row) :
  Forall child_event evs -> In x (rows t (replay evs d)) -> In x (rows t d).
Proof.
  intros H. revert d. induction H as [| ev evs Hev _ IH]; intros d Hin; [exact Hin |].
  change (In x (rows t (replay evs (apply_change ev d)))) in Hin.
  apply IH in Hin. apply rows_apply_change_origin in Hin.
  destruct Hin as [Hin | Hnew]; [exact Hin |].
  destruct ev as [r | o r | o]; try contradiction. discriminate Hnew.
Qed.

(** The store a statement leaves, from its row event and what cascades. *)
Lemma exec_store (s : session) (d : db) (q : statement) (d' : db) (evs : list row_event) :
  exec s d q = Ok (d', evs) ->
  (target s d q = Ok None /\ d' = d /\ evs = [])
  \/ exists ev children recs,
      target s d q = Ok (Some ev)
      /\ evs = children ++ [ev]
      /\ Forall child_event children
      /\ (children = [] \/ exists p, ev = Deleted (Profile p))
      /\ d' = with_audit_logs (audit_logs d ++ recs)
                (apply_change ev (replay children d))
      /\ Forall2 (audited s) evs recs.
Proof.
  intros H. pose proof (exec_ok _ _ _ _ _ H) as (recs & Hd' & Haud & _).
  apply exec_steps in H.
  destruct H as [Hnone | (ev & d1 & children & Ht & Hc & _ & ->)]; [left; exact Hnone |].
  right. exists ev, children, recs.
  pose proof (change_child_events _ _ _ _ _ Hc) as Hch.
  pose proof (change_children _ _ _ _ _ Hc) as [Hcases _].
  rewrite replay_app in Hd'. repeat split; trivial.
Qed.

(** The new row of a statement's row event is the given row as its
    columns type it, and passed the checks. *)
Lemma target_new_row (s : session) (d : db) (q : statement) (ev : row_event) (x : row) :
  target s d q = Ok (Some ev) ->
  NEW ev = Some x ->
  exists r,
    (q = Insert r \/ q = Update r)
    /\ typed r = Ok x
    /\ check_constraints x = Ok tt
    /\ unique_columns d x = Ok tt
    /\ foreign_keys d x = Ok tt.
Proof.
  intros Ht Hnew. destruct q as [r | r | t' k].
  - apply target_insert_iff in Ht.
    destruct Ht as (r' & Hty & _ & Hck & _ & Huq & Hfk & Hev). injection Hev as ->.
    injection Hnew as ->. exists r. repeat split; trivial. left; reflexivity.
  - simpl in Ht.
    destruct (lookup (table_of r) (row_id r) d) as [old |]; [| discriminate].
    destruct (rls_using s d cmd_UPDATE old); [| discriminate].
    destruct (typed r) as [r' |] eqn:Hty; simpl in Ht; [| discriminate].
    destruct (guard _ insufficient_privilege); simpl in Ht; [| discriminate].
    destruct (check_constraints r') as [[] |] eqn:Hck; simpl in Ht; [| discriminate].
    destruct (unique_columns d r') as [[] |] eqn:Huq; simpl in Ht; [| discriminate].
    destruct (foreign_keys d r') as [[] |] eqn:Hfk; simpl in Ht; [| discriminate].
    injection Ht as <-. injection Hnew as <-.
    exists r. repeat split; trivial. right; reflexivity.
  - apply target_delete in Ht. destruct Ht as (old & -> & _). discriminate Hnew.
Qed.

(** A row of the store a statement leaves was there before, or is the row
    the statement inserts or updates to. *)
Lemma exec_rows_origin (s : session) (d : db) (q : statement) (d' : db)
    (evs : list row_event) (t : table) (x : row) :
  exec s d q = Ok (d', evs) ->
  In x (rows t d') ->
  In x (rows t d)
  \/ exists r,
      (q = Insert r \/ q = Update r)
      /\ typed r = Ok x
      /\ check_constraints x = Ok tt
      /\ unique_columns d x = Ok tt
      /\ foreign_keys d x = Ok tt.
Proof.
  intros H Hin. apply exec_store in H.
  destruct H as [(_ & -> & _) | (ev & children & recs & Ht & _ & Hch & _ & -> & _)];
    [left; exact Hin |].
  rewrite rows_with_audit_logs in Hin. apply rows_apply_change_origin in Hin.
  destruct Hin as [Hin | Hnew]; [left; eapply rows_replay_children; eassumption |].
  right. eapply target_new_row; eassumption.
Qed.

Lemma run_cases (s : session) (d : db) (q : statement) :
  fst (run s d q) = d \/ exists evs, exec s d q = Ok (fst (run s d q), evs).
Proof.
  unfold run. destruct (exec s d q) as [[d' evs] | e]; simpl;
    [right; exists evs; reflexivity | left; reflexivity].
Qed.

(** ** The CHECK constraints *)





(** ** The primary keys *)

Lemma map_row_id_replace_where (k : uuid) (r : row) (l : list row) :
  row_id r = k ->
  map row_id (replace_where (fun x => N.eqb (row_id x) k) r l) = map row_id l.
Proof.
  intros Hr. induction l as [| x l IH]; simpl; [reflexivity |]. rewrite IH. f_equal.
  destruct (N.eqb_spec (row_id x) k); congruence.
Qed.

Lemma find_by_key (l : list row) (r : row) :
  NoDup (map row_id l) -> In r l ->
  find (fun x => N.eqb (row_id x) (row_id r)) l = Some r.
Proof.
  induction l as [| x l IH]; simpl; intros Hnd Hin; [contradiction |].
  inversion Hnd as [| ? ? Hx Hl]; subst.
  destruct Hin as [-> | Hin]; [rewrite N.eqb_refl; reflexivity |].
  destruct (N.eqb_spec (row_id x) (row_id r)) as [Heq | _]; [| apply IH; assumption].
  exfalso. apply Hx. rewrite Heq. apply in_map. exact Hin.
Qed.

Lemma apply_change_keys (ev : row_event) (d : db) (t : table) :
  match ev with
  | Inserted r => lookup (table_of r) (row_id r) d = None
  | Updated old r => row_id r = row_id old
  | Deleted _ => True
  end ->
  NoDup (map row_id (rows t d)) ->
  NoDup (map row_id (rows t (apply_change ev d))).
Proof.
  destruct ev as [r | o r | o]; simpl; intros Hev Hnd.
  - rewrite rows_store_insert. destruct (table_eqb (table_of r) t) eqn:Et; [| exact Hnd].
    apply table_eqb_eq in Et. subst t. rewrite map_app. simpl.
    apply NoDup_app; [exact Hnd | constructor; [intros [] | constructor] |].
    intros k Hk [<- | []]. apply in_map_iff in Hk. destruct Hk as (x & Hx & Hin).
    unfold lookup in Hev. apply find_none_iff in Hev.
    rewrite <- not_true_iff_false in Hev. apply Hev.
    apply existsb_exists. exists x. split; [exact Hin | apply N.eqb_eq; exact Hx].
  - rewrite rows_store_update. destruct (table_eqb (table_of r) t); [| exact Hnd].
    rewrite map_row_id_replace_where by exact Hev. exact Hnd.
  - rewrite rows_store_delete. destruct (table_eqb (table_of o) t); [| exact Hnd].
    apply delete_where_keys. exact Hnd.
Qed.

Lemma replay_children_keys (evs : list row_event) (d : db) (t : table) :
  Forall child_event evs ->
  NoDup (map row_id (rows t d)) ->
  NoDup (map row_id (rows t (replay evs d))).
Proof.
  intros H. revert d. induction H as [| ev evs Hev _ IH]; intros d Hnd; [exact Hnd |].
  change (NoDup (map row_id (rows t (replay evs (apply_change ev d))))).
  apply IH. apply apply_change_keys; [| exact Hnd].
  destruct ev as [r | o r | o]; try contradiction. exact I.
Qed.

Lemma audit_log_changes_keys (s : session) (ev : row_event) (d d' : db) :
  audit_log_changes s ev d = Ok d' ->
  NoDup (map audit_logs.id (audit_logs d)) ->
  NoDup (map audit_logs.id (audit_logs d')).
Proof.
  intros H Hnd. apply audit_log_changes_ok in H. destruct H as (h & _ & -> & Hk & _).
  rewrite audit_logs_with_audit_logs, map_app. simpl.
  apply NoDup_app; [exact Hnd | constructor; [intros [] | constructor] |].
  intros k Hin [<- | []]. exact (Hk Hin).
Qed.

Lemma perform_all_keys (s : session) (evs : list row_event) (d d' : db) :
  perform_all s evs d = Ok d' ->
  NoDup (map audit_logs.id (audit_logs d)) ->
  NoDup (map audit_logs.id (audit_logs d')).
Proof.
  revert d. induction evs as [| ev evs IH]; intros d H Hnd; simpl in H.
  - injection H as <-. exact Hnd.
  - inv_bind H as d1. eapply IH; [exact H |].
    unfold perform in E. rewrite fire_after_row_audit in E.
    eapply audit_log_changes_keys; [exact E |].
    rewrite audit_logs_apply_change. exact Hnd.
Qed.

Lemma change_keys (s : session) (ev : row_event) (d d1 : db) (children : list row_event) :
  change s ev d = Ok (d1, children) ->
  NoDup (map audit_logs.id (audit_logs d)) ->
  NoDup (map audit_logs.id (audit_logs d1)).
Proof.
  assert (Hplain : Ok (apply_change ev d, @nil row_event) = Ok (d1, children) ->
                   NoDup (map audit_logs.id (audit_logs d)) ->
                   NoDup (map audit_logs.id (audit_logs d1))).
  { intros H Hnd. injection H as <- _. rewrite audit_logs_apply_change. exact Hnd. }
  destruct ev as [r | o r | o]; try exact Hplain.
  destruct o as [p | | | |]; try exact Hplain. clear Hplain.
  unfold change. intros H Hnd. inv_bind H as d2. inv_guard H. injection H as <- _.
  eapply perform_all_keys; [exact E |]. rewrite audit_logs_apply_change. exact Hnd.
Qed.

Lemma exec_keys_ok (s : session) (d : db) (q : statement) (d' : db) (evs : list row_event) :
  exec s d q = Ok (d', evs) -> keys_ok d -> keys_ok d'.
Proof.
  intros H [Hrows Haudit]. split.
  - intros t. apply exec_store in H.
    destruct H as [(_ & -> & _) | (ev & children & recs & Ht & _ & Hch & Hcases & -> & _)];
      [apply Hrows |].
    rewrite rows_with_audit_logs.
    destruct Hcases as [-> | (p & ->)].
    + change (replay [] d) with d. apply apply_change_keys; [| apply Hrows].
      destruct q as [r | r | t' k].
      * apply target_insert_iff in Ht.
        destruct Ht as (r' & _ & _ & _ & Hpk & _ & _ & Hev). injection Hev as ->.
        apply primary_key_ok. exact Hpk.
      * apply target_update in Ht. destruct Ht as (old & r' & -> & Hty & Hlk & _).
        apply typed_table_of in Hty. apply lookup_some in Hlk.
        destruct Hty as [_ ->]. destruct Hlk as (_ & -> & _). reflexivity.
      * apply target_delete in Ht. destruct Ht as (old & -> & _). exact I.
    + apply apply_change_keys; [exact I |].
      apply replay_children_keys; [exact Hch | apply Hrows].
  - apply exec_steps in H.
    destruct H as [(_ & -> & _) | (ev & d1 & children & _ & Hc & Ha & _)];
      [exact Haudit |].
    eapply audit_log_changes_keys; [exact Ha |].
    eapply change_keys; eassumption.
Qed.

Lemma reachable_keys_ok (d : db) : reachable d -> keys_ok d.
Proof.
  induction 1 as [| d u _ IH | s d q _ IH].
  - split; [intros []; constructor | constructor].
  - destruct IH as [Hrows Haudit]. split; [| exact Haudit].
    intros t. specialize (Hrows t). destruct t; exact Hrows.
  - destruct (run_cases s d q) as [-> | (evs & H)]; [exact IH |].
    eapply exec_keys_ok; eassumption.
Qed.

(** ** What the policies grant *)

Lemma rls_with_check_cases (s : session) (d : db) (c : command) (r : row) :
  c = cmd_INSERT \/ c = cmd_UPDATE \/ c = cmd_DELETE ->
  rls_with_check s d c r
  = negb (row_security s)
    || match r, c with
       | TimeEntry e, cmd_INSERT =>
           is_true (sql_eq N.eqb (auth_uid s) (time_entries.user_id e))
       | TimeEntry _, _ => false
       | Profile _, cmd_DELETE => false
       | _, _ => admin_session s d
       end.
Proof.
  intros [-> | [-> | ->]]; destruct r; unfold rls_with_check, admin_session; simpl;
    try destruct (sql_exists _ (profiles d)); rewrite ?orb_false_r; reflexivity.
Qed.

Lemma rls_using_cases (s : session) (d : db) (c : command) (r : row) :
  c = cmd_UPDATE \/ c = cmd_DELETE ->
  rls_using s d c r
  = negb (row_security s)
    || match r, c with
       | TimeEntry _, _ => false
       | Profile _, cmd_DELETE => false
       | _, _ => admin_session s d
       end.
Proof.
  intros [-> | ->]; destruct r; unfold rls_using, admin_session; simpl;
    try destruct (sql_exists _ (profiles d)); rewrite ?orb_false_r; reflexivity.
Qed.

(** ** References to profiles *)

Lemma has_profile_rows (d : db) (u : uuid) :
  has_profile d u = existsb (fun x => N.eqb (row_id x) u) (rows t_profiles d).
Proof.
  unfold has_profile. simpl. induction (profiles d) as [| p l IH]; simpl; [reflexivity |].
  rewrite IH. reflexivity.
Qed.

Lemma has_profile_true (d : db) (u : uuid) :
  has_profile d u = true <-> In u (map row_id (rows t_profiles d)).
Proof.
  rewrite has_profile_rows, existsb_exists, in_map_iff. split.
  - intros (x & Hin & Hx). apply N.eqb_eq in Hx. exists x. tauto.
  - intros (x & Hx & Hin). exists x. split; [exact Hin | apply N.eqb_eq; exact Hx].
Qed.

Lemma references_profile_true (d : db) (u : option uuid) :
  references_profile d u = true
  <-> forall k, u = Some k -> In k (map row_id (rows t_profiles d)).
Proof.
  destruct u as [u |]; unfold references_profile.
  - rewrite has_profile_true. split.
    + intros H k Hk. injection Hk as <-. exact H.
    + intros H. apply H. reflexivity.
  - split; [intros _ k Hk; discriminate | reflexivity].
Qed.

(** The references of a row's own columns, column by column. *)
Lemma foreign_keys_ok (d : db) (r : row) :
  foreign_keys d r = Ok tt
  <-> (forall p, r = Profile p -> In (profiles.id p) (auth_users d))
      /\ (forall u, In u (cascading_refs r ++ restricting_refs r) ->
                    references_profile d u = true).
Proof.
  destruct r as [p | e | c | w | g]; simpl.
  - destruct (existsb (N.eqb (profiles.id p)) (auth_users d)) eqn:E; simpl.
    + split; [intros _ | reflexivity]. split; [| intros u []].
      intros p0 Hp. injection Hp as <-. apply existsb_exists in E.
      destruct E as (x & Hin & Hx). apply N.eqb_eq in Hx. subst x. exact Hin.
    + split; [discriminate |]. intros [H _]. exfalso.
      rewrite <- not_true_iff_false in E. apply E. apply existsb_exists.
      exists (profiles.id p). split; [apply H; reflexivity | apply N.eqb_refl].
  - destruct (references_profile d (time_entries.user_id e)) eqn:E; simpl.
    + split; [intros _ | reflexivity]. split; [discriminate |].
      intros u [<- | []]. exact E.
    + split; [discriminate |]. intros [_ H].
      rewrite H in E by (left; reflexivity). discriminate.
  - destruct (references_profile d (schedules.user_id c)) eqn:E1;
      destruct (references_profile d (schedules.created_by c)) eqn:E2; simpl;
      (split; [try discriminate; intros _ | try reflexivity]).
    + split; [discriminate |]. intros u [<- | [<- | []]]; assumption.
    + intros [_ H]. rewrite H in E2 by (right; left; reflexivity). discriminate.
    + intros [_ H]. rewrite H in E1 by (left; reflexivity). discriminate.
    + intros [_ H]. rewrite H in E1 by (left; reflexivity). discriminate.
  - destruct (references_profile d (ip_whitelist.created_by w)) eqn:E; simpl.
    + split; [intros _ | reflexivity]. split; [discriminate |].
      intros u [<- | []]. exact E.
    + split; [discriminate |]. intros [_ H].
      rewrite H in E by (left; reflexivity). discriminate.
  - destruct (references_profile d (geo_fences.created_by g)) eqn:E; simpl.
    + split; [intros _ | reflexivity]. split; [discriminate |].
      intros u [<- | []]. exact E.
    + split; [discriminate |]. intros [_ H].
      rewrite H in E by (left; reflexivity). discriminate.
Qed.

(** References survive where the profiles they name do. *)
Lemma foreign_keys_mono (d d' : db) (r : row) :
  incl (auth_users d) (auth_users d') ->
  (forall k, In (Some k) (cascading_refs r ++ restricting_refs r) ->
             In k (map row_id (rows t_profiles d)) ->
             In k (map row_id (rows t_profiles d'))) ->
  foreign_keys d r = Ok tt -> foreign_keys d' r = Ok tt.
Proof.
  intros Hau Hp H. apply foreign_keys_ok in H. destruct H as [Hauth Hrefs].
  apply foreign_keys_ok. split.
  - intros p Hr. apply Hau. apply Hauth. exact Hr.
  - intros u Hu. apply references_profile_true. intros k ->.
    apply Hp; [exact Hu |].
    specialize (Hrefs _ Hu). rewrite references_profile_true in Hrefs.
    apply Hrefs. reflexivity.
Qed.

Lemma sql_eq_some (u : option uuid) (k : uuid) :
  is_true (sql_eq N.eqb u (Some k)) = true <-> u = Some k.
Proof.
  destruct u as [u |]; simpl; [| split; discriminate].
  destruct (N.eqb_spec u k); simpl; split; congruence.
Qed.

Lemma not_profile_table (r : row) :
  (forall p, r <> Profile p) -> table_eqb (table_of r) t_profiles = false.
Proof. destruct r; intros H; try reflexivity. contradiction (H r). reflexivity. Qed.

(** A row change other than the deletion of a profile keeps the keys of
    [profiles]. *)
Lemma profile_ids_apply_change (ev : row_event) (d : db) (k : uuid) :
  (forall p, ev <> Deleted (Profile p)) ->
  match ev with Updated old r => row_id r = row_id old | _ => True end ->
  In k (map row_id (rows t_profiles d)) ->
  In k (map row_id (rows t_profiles (apply_change ev d))).
Proof.
  destruct ev as [r | o r | o]; intros Hev Hwf Hin; unfold apply_change.
  - rewrite rows_store_insert. destruct (table_eqb (table_of r) t_profiles); [| exact Hin].
    rewrite map_app. apply in_or_app. left; exact Hin.
  - rewrite rows_store_update. destruct (table_eqb (table_of r) t_profiles); [| exact Hin].
    rewrite map_row_id_replace_where by exact Hwf. exact Hin.
  - rewrite rows_store_delete, not_profile_table; [exact Hin |].
    intros p ->. contradiction (Hev p). reflexivity.
Qed.

Lemma profile_ids_delete_profile (p : profiles.row) (d : db) (k : uuid) :
  In k (map row_id (rows t_profiles (apply_change (Deleted (Profile p)) d)))
  <-> In k (map row_id (rows t_profiles d)) /\ k <> profiles.id p.
Proof.
  change (apply_change (Deleted (Profile p)) d)
    with (store_delete t_profiles (profiles.id p) d).
  rewrite rows_store_delete. simpl table_eqb. cbv iota.
  unfold delete_where. rewrite !in_map_iff. split.
  - intros (x & Hx & Hin). apply filter_In in Hin. destruct Hin as [Hin Hne].
    split; [exists x; tauto |]. apply negb_true_iff in Hne. apply N.eqb_neq in Hne.
    simpl in Hne. congruence.
  - intros [(x & Hx & Hin) Hne]. exists x. split; [exact Hx |].
    apply filter_In. split; [exact Hin |]. apply negb_true_iff. apply N.eqb_neq.
    simpl. congruence.
Qed.

Lemma rows_child_event (t : table) (ev : row_event) (d : db) :
  child_event ev -> t <> t_time_entries -> t <> t_schedules ->
  rows t (apply_change ev d) = rows t d.
Proof.
  destruct ev as [r | o r | o]; try contradiction.
  destruct o; try contradiction; intros _ Hte Hsc; unfold apply_change;
    rewrite rows_store_delete; destruct t; try reflexivity; congruence.
Qed.

Lemma rows_replay_child_other (t : table) (evs : list row_event) (d : db) :
  Forall child_event evs -> t <> t_time_entries -> t <> t_schedules ->
  rows t (replay evs d) = rows t d.
Proof.
  intros H Hte Hsc. revert d. induction H as [| ev evs Hev _ IH]; intros d; [reflexivity |].
  change (rows t (replay evs (apply_change ev d)) = rows t d).
  rewrite IH. apply rows_child_event; assumption.
Qed.

(** A row that cascades is gone after the cascade. *)
Lemma rows_replay_deleted_gone (t : table) (evs : list row_event) (d : db) (x old : row) :
  Forall child_event evs ->
  In x (rows t (replay evs d)) ->
  In (Deleted old) evs -> table_of old = t ->
  row_id old <> row_id x.
Proof.
  intros H. revert d. induction H as [| ev evs Hev Hevs IH]; intros d Hin Hold Htab;
    [contradiction |].
  change (In x (rows t (replay evs (apply_change ev d)))) in Hin.
  destruct Hold as [-> | Hold]; [| eapply IH; eassumption].
  apply rows_replay_children in Hin; [| exact Hevs].
  unfold apply_change in Hin. rewrite rows_store_delete, Htab, table_eqb_refl in Hin.
  unfold delete_where in Hin. apply filter_In in Hin. destruct Hin as [_ Hne].
  apply negb_true_iff in Hne. apply N.eqb_neq in Hne. congruence.
Qed.

Lemma cascaded_in (d : db) (k : uuid) (t : table) (x : row) :
  In x (rows t d) -> In (Some k) (cascading_refs x) -> In (Deleted x) (cascaded d k).
Proof.
  unfold cascaded. intros Hin Hk. apply in_or_app.
  destruct x as [? | e | c | ? | ?]; try contradiction;
    destruct Hk as [Hk | []];
    destruct t; simpl in Hin; apply in_map_iff in Hin;
    destruct Hin as (y & Hy & Hin); try discriminate Hy; injection Hy as ->;
    [left | right]; apply in_map_iff; eexists; (split; [reflexivity |]);
    apply filter_In; (split; [exact Hin |]); apply sql_eq_some; exact Hk.
Qed.

Lemma change_profile (s : session) (p : profiles.row) (d d1 : db)
    (children : list row_event) :
  change s (Deleted (Profile p)) d = Ok (d1, children) ->
  children = cascaded d (profiles.id p)
  /\ profile_referenced d1 (profiles.id p) = false.
Proof.
  unfold change. intros H. inv_bind H as d2. inv_guard H. injection H as <- <-.
  split; [reflexivity |]. apply negb_true_iff. exact G.
Qed.

Lemma existsb_false {A : Type} (p : A -> bool) (l : list A) :
  existsb p l = false -> forall x, In x l -> p x = false.
Proof.
  intros H x Hin. destruct (p x) eqn:E; [| reflexivity].
  rewrite <- not_true_iff_false in H. exfalso. apply H.
  apply existsb_exists. exists x. tauto.
Qed.

Lemma profile_not_referenced (d : db) (k : uuid) :
  profile_referenced d k = false ->
  (forall t x, In x (rows t d) -> ~ In (Some k) (restricting_refs x))
  /\ (forall a, In a (audit_logs d) -> audit_logs.user_id a <> Some k).
Proof.
  unfold profile_referenced. intros H.
  apply orb_false_iff in H. destruct H as [H Hg].
  apply orb_false_iff in H. destruct H as [H Hw].
  apply orb_false_iff in H. destruct H as [Hs Ha].
  split.
  - intros t x Hin Hk.
    destruct x as [? | ? | c | w | g]; try contradiction; destruct Hk as [Hk | []];
      destruct t; simpl in Hin; apply in_map_iff in Hin;
      destruct Hin as (y & Hy & Hin); try discriminate Hy; injection Hy as ->.
    + pose proof (existsb_false _ _ Hs _ Hin) as Hf. simpl in Hf.
      apply sql_eq_some in Hk. congruence.
    + pose proof (existsb_false _ _ Hw _ Hin) as Hf. simpl in Hf.
      apply sql_eq_some in Hk. congruence.
    + pose proof (existsb_false _ _ Hg _ Hin) as Hf. simpl in Hf.
      apply sql_eq_some in Hk. congruence.
  - intros a Hin Hk. pose proof (existsb_false _ _ Ha _ Hin) as Hf. simpl in Hf.
    apply sql_eq_some in Hk. congruence.
Qed.

(** The acting principal of a statement that changed a row has a profile
    in the store it leaves, or is NULL. *)
Lemma exec_actor (s : session) (d : db) (q : statement) (d' : db) (evs : list row_event) :
  exec s d q = Ok (d', evs) -> evs <> [] ->
  references_profile d' (auth_uid s) = true.
Proof.
  intros H Hevs. apply exec_steps in H.
  destruct H as [(_ & _ & ->) | (ev & d1 & children & _ & _ & Ha & _)];
    [contradiction Hevs; reflexivity |].
  apply audit_log_changes_ok in Ha. destruct Ha as (h & _ & -> & _ & Hu).
  exact Hu.
Qed.

Lemma foreign_keys_with_audit_logs (l : list audit_logs.row) (d : db) (r : row) :
  foreign_keys (with_audit_logs l d) r = foreign_keys d r.
Proof. destruct r; reflexivity. Qed.

Lemma auth_users_apply_change (ev : row_event) (d : db) :
  auth_users (apply_change ev d) = auth_users d.
Proof.
  destruct ev as [r | o r | o]; [destruct r | destruct r | destruct o]; reflexivity.
Qed.

Lemma auth_users_replay (evs : list row_event) (d : db) :
  auth_users (replay evs d) = auth_users d.
Proof.
  revert d. induction evs as [| ev evs IH]; intros d; [reflexivity |].
  change (auth_users (replay evs (apply_change ev d)) = auth_users d).
  rewrite IH. apply auth_users_apply_change.
Qed.

Lemma rows_table_of (t : table) (d : db) (x : row) : In x (rows t d) -> table_of x = t.
Proof.
  destruct t; simpl; intros H; apply in_map_iff in H; destruct H as (y & <- & _);
    reflexivity.
Qed.

Lemma audited_user (s : session) (evs : list row_event) (recs : list audit_logs.row) :
  Forall2 (audited s) evs recs ->
  Forall (fun a => audit_logs.user_id a = auth_uid s) recs.
Proof.
  induction 1 as [| ev a evs recs Ha _ IH]; constructor; [apply Ha | exact IH].
Qed.

(** A statement other than the deletion of a profile keeps referential
    integrity. *)
Lemma exec_references_plain (s : session) (d : db) (q : statement) (d' : db)
    (ev : row_event) (recs : list audit_logs.row) :
  target s d q = Ok (Some ev) ->
  (forall p, ev <> Deleted (Profile p)) ->
  d' = with_audit_logs (audit_logs d ++ recs) (apply_change ev d) ->
  Forall (fun a => audit_logs.user_id a = auth_uid s) recs ->
  references_profile d' (auth_uid s) = true ->
  references_ok d -> references_ok d'.
Proof.
  intros Ht Hev -> Hrecs Hactor [Hrows Haud].
  assert (Hwf : match ev with Updated old r => row_id r = row_id old | _ => True end).
  { destruct ev as [r | old r | old]; try exact I.
    destruct q as [r0 | r0 | t k].
    - apply target_insert in Ht. destruct Ht as (r' & _ & Hev' & _). discriminate.
    - apply target_update in Ht. destruct Ht as (old' & r' & Hev' & Hty & Hlk & _).
      injection Hev' as -> ->. apply typed_table_of in Hty. apply lookup_some in Hlk.
      destruct Hty as [_ ->]. destruct Hlk as (_ & -> & _). reflexivity.
    - apply target_delete in Ht. destruct Ht as (old' & Hev' & _). discriminate. }
  assert (Hids : forall k, In k (map row_id (rows t_profiles d)) ->
                           In k (map row_id (rows t_profiles (apply_change ev d)))).
  { intros k. apply profile_ids_apply_change; assumption. }
  assert (Hmono : forall x, foreign_keys d x = Ok tt ->
                            foreign_keys (apply_change ev d) x = Ok tt).
  { intros x. apply foreign_keys_mono.
    - rewrite auth_users_apply_change. apply incl_refl.
    - intros k _. apply Hids. }
  split.
  - intros t x Hin. rewrite rows_with_audit_logs in Hin.
    rewrite foreign_keys_with_audit_logs. apply Hmono.
    apply rows_apply_change_origin in Hin. destruct Hin as [Hin | Hnew].
    + eapply Hrows; exact Hin.
    + destruct (target_new_row _ _ _ _ _ Ht Hnew) as (r & _ & _ & _ & _ & Hfk).
      exact Hfk.
  - rewrite audit_logs_with_audit_logs. apply Forall_app. split.
    + eapply Forall_impl; [| exact Haud]. intros a Ha.
      change (references_profile (apply_change ev d) (audit_logs.user_id a) = true).
      apply references_profile_true. intros k Hk. apply Hids.
      rewrite references_profile_true in Ha. apply Ha. exact Hk.
    + eapply Forall_impl; [| exact Hrecs]. intros a Ha. simpl in Ha. rewrite Ha.
      exact Hactor.
Qed.

(** The deletion of a profile keeps referential integrity: what referenced
    the profile has cascaded, or the statement has failed. *)
Lemma exec_references_profile (s : session) (d d1 d' : db) (p : profiles.row)
    (children : list row_event) :
  change s (Deleted (Profile p)) d = Ok (d1, children) ->
  audit_log_changes s (Deleted (Profile p)) d1 = Ok d' ->
  references_ok d -> references_ok d'.
Proof.
  intros Hc Ha [Hrows Haud].
  pose proof (change_profile _ _ _ _ _ Hc) as [Hch Hnr].
  pose proof (change_child_events _ _ _ _ _ Hc) as Hchildren.
  apply change_ok in Hc. destruct Hc as (recs & Hd1 & Hrecs & _).
  apply audited_user in Hrecs.
  apply profile_not_referenced in Hnr. destruct Hnr as [Hnrows Hnaud].
  apply audit_log_changes_ok in Ha. destruct Ha as (h & Hs & -> & _ & Hactor).
  set (X := apply_change (Deleted (Profile p)) (replay children d)) in *.
  assert (Hids : forall k, In k (map row_id (rows t_profiles d)) -> k <> profiles.id p ->
                           In k (map row_id (rows t_profiles X))).
  { intros k Hin Hne. unfold X. apply profile_ids_delete_profile. split; [| exact Hne].
    rewrite rows_replay_child_other by (trivial; discriminate). exact Hin. }
  assert (Hrefd1 : forall u, references_profile d1 u = references_profile X u)
    by (intros u; rewrite Hd1; reflexivity).
  split.
  - intros t x Hin. rewrite rows_with_audit_logs in Hin.
    rewrite foreign_keys_with_audit_logs.
    assert (HinX : In x (rows t X)) by (rewrite Hd1, rows_with_audit_logs in Hin; exact Hin).
    rewrite Hd1, foreign_keys_with_audit_logs.
    pose proof HinX as Hin0. unfold X in Hin0.
    apply rows_apply_change_origin in Hin0.
    destruct Hin0 as [Hin0 | Hnew]; [| discriminate Hnew].
    pose proof (rows_replay_children _ _ _ _ Hchildren Hin0) as Hind.
    eapply foreign_keys_mono; [| | eapply Hrows; exact Hind].
    + unfold X. rewrite auth_users_apply_change, auth_users_replay. apply incl_refl.
    + intros k Hk Hkd. apply Hids; [exact Hkd |]. intros ->.
      apply in_app_or in Hk. destruct Hk as [Hk | Hk].
      * pose proof (cascaded_in _ _ _ _ Hind Hk) as Hcas. rewrite <- Hch in Hcas.
        apply (rows_replay_deleted_gone _ _ _ _ _ Hchildren Hin0 Hcas);
          [eapply rows_table_of; exact Hind | reflexivity].
      * apply (Hnrows t x); [| exact Hk].
        rewrite Hd1, rows_with_audit_logs. exact HinX.
  - rewrite audit_logs_with_audit_logs. apply Forall_app. split.
    + apply Forall_forall. intros a Hin.
      change (references_profile d1 (audit_logs.user_id a) = true).
      pose proof (Hnaud a Hin) as Hne.
      rewrite Hd1, audit_logs_with_audit_logs in Hin. apply in_app_or in Hin.
      destruct Hin as [Hin | Hin].
      * rewrite Forall_forall in Haud. specialize (Haud a Hin).
        rewrite Hrefd1. apply references_profile_true. intros k Hk.
        apply Hids; [| congruence].
        rewrite references_profile_true in Haud. apply Haud. exact Hk.
      * rewrite Forall_forall in Hrecs. rewrite (Hrecs a Hin). exact Hactor.
    + constructor; [| constructor]. exact Hactor.
Qed.

Lemma exec_references_ok (s : session) (d : db) (q : statement) (d' : db)
    (evs : list row_event) :
  exec s d q = Ok (d', evs) -> references_ok d -> references_ok d'.
Proof.
  intros H Hok. pose proof (exec_steps _ _ _ _ _ H) as Hs.
  destruct Hs as [(_ & -> & _) | (ev & d1 & children & Ht & Hc & Ha & Hevs)];
    [exact Hok |].
  assert (Hcase : (exists p, ev = Deleted (Profile p)) \/ forall p, ev <> Deleted (Profile p)).
  { destruct ev as [r | o r | o]; try (right; discriminate).
    destruct o as [p | | | |]; try (right; discriminate). left. exists p. reflexivity. }
  destruct Hcase as [(p & ->) | Hev].
  - eapply exec_references_profile; eassumption.
  - assert (Hne : evs <> []) by (rewrite Hevs; intros E; apply app_eq_nil in E;
                                 destruct E as [_ E]; discriminate E).
    pose proof (exec_actor _ _ _ _ _ H Hne) as Hactor.
    destruct (exec_single _ _ _ _ _ _ H Ht Hev) as (a & Hd' & _ & Haud & _).
    eapply (exec_references_plain s d q d' ev [a]); trivial.
    constructor; [apply Haud | constructor].
Qed.

Lemma reachable_references_ok (d : db) : reachable d -> references_ok d.
Proof.
  induction 1 as [| d u _ IH | s d q _ IH].
  - split; [intros [] x [] | constructor].
  - destruct IH as [Hrows Haud]. split; [| exact Haud].
    intros t x Hin.
    assert (Hin' : In x (rows t d)) by (destruct t; exact Hin).
    eapply foreign_keys_mono; [| | exact (Hrows t x Hin')].
    + intros k Hk. right; exact Hk.
    + intros k _ Hk. exact Hk.
  - destruct (run_cases s d q) as [-> | (evs & H)]; [exact IH |].
    eapply exec_references_ok; eassumption.
Qed.

(** ** The deletion of a profile *)



(** ** The audit trail only grows *)

Lemma run_audit_logs (s : session) (d : db) (q : statement) :
  exists recs, audit_logs (fst (run s d q)) = audit_logs d ++ recs.
Proof.
  destruct (run_cases s d q) as [-> | (evs & H)].
  - exists []. symmetry. apply app_nil_r.
  - apply exec_ok in H. destruct H as (recs & -> & _). exists recs. reflexivity.
Qed.

Lemma run_all_audit_logs (qs : list (session * statement)) (d : db) :
  exists recs, audit_logs (run_all qs d) = audit_logs d ++ recs.
Proof.
  revert d. induction qs as [| [s q] qs IH]; intros d; simpl.
  - exists []. symmetry. apply app_nil_r.
  - destruct (IH (fst (run s d q))) as (recs2 & ->).
    destruct (run_audit_logs s d q) as (recs1 & ->).
    exists (recs1 ++ recs2). symmetry. apply app_assoc.
Qed.

(** ** Decimal columns *)








(** ** The pages *)

Lemma strict_eq_true (x : option text) (y : text) :
  UI.strict_eq x y = true <-> x = Some y.
Proof.
  destruct x as [v |]; simpl; [| split; discriminate].
  rewrite String.eqb_eq. split; congruence.
Qed.

Lemma or_else_not_empty (x : option text) (y : text) :
  y <> "" -> UI.or_else x y <> "".
Proof.
  intros Hy. destruct x as [v |]; simpl; [| exact Hy].
  destruct (String.eqb_spec v ""); assumption.
Qed.

(** What [App] renders: nothing, or a route of the table under its
    layout. *)
Lemma App_cases (matchPath : text -> text -> bool) (a : UI.auth) (pathname : text) :
  UI.App matchPath a pathname = UI.Null
  \/ exists r, In r UI.routes
               /\ matchPath (UI.path r) pathname = true
               /\ UI.App matchPath a pathname = UI.render_route a pathname r.
Proof.
  unfold UI.App.
  destruct (find (fun r => matchPath (UI.path r) pathname) UI.routes) as [r |] eqn:E;
    [right | left; reflexivity].
  apply find_some in E. exists r. tauto.
Qed.

(** The routes of the two redirects. *)
Lemma App_root (matchPath : text -> text -> bool) (a : UI.auth) :
  UI.matching matchPath ->
  UI.App matchPath a "/" = UI.DashboardLayout a "/" (UI.render_Dashboard a).
Proof.
  intros [Hself Hone]. unfold UI.App. simpl.
  assert (Hroot : matchPath "/" "/" = true) by (apply Hself; simpl; tauto).
  destruct (matchPath "/login" "/") eqn:E.
  - assert (Heq : "/login" = "/") by (apply (Hone _ _ "/"); simpl; tauto).
    discriminate Heq.
  - rewrite Hroot. reflexivity.
Qed.

Lemma App_login (matchPath : text -> text -> bool) (a : UI.auth) :
  UI.matching matchPath ->
  UI.App matchPath a "/login" = UI.AuthLayout a (UI.Leaf UI.Login).
Proof.
  intros [Hself _]. unfold UI.App. simpl.
  rewrite (Hself "/login") by (simpl; tauto). reflexivity.
Qed.

Lemma profile_ids (d : db) :
  map row_id (rows t_profiles d) = map profiles.id (profiles d).
Proof. simpl. rewrite map_map. reflexivity. Qed.



(** ** What the policies let a session read *)


Lemma same_key_same_row {A : Type} (f : A -> uuid) (l : list A) (x y : A) :
  NoDup (map f l) -> In x l -> In y l -> f x = f y -> x = y.
Proof.
  induction l as [| z l IH]; simpl; intros Hnd Hx Hy Hf; [contradiction |].
  inversion Hnd as [| ? ? Hz Hl]; subst.
  destruct Hx as [-> | Hx], Hy as [-> | Hy]; trivial.
  - contradiction Hz. rewrite Hf. apply in_map. exact Hy.
  - contradiction Hz. rewrite <- Hf. apply in_map. exact Hx.
  - apply IH; assumption.
Qed.

(** ** The employee ids *)

Lemma in_profiles_rows (d : db) (p : profiles.row) :
  In (Profile p) (rows t_profiles d) <-> In p (profiles d).
Proof.
  simpl. rewrite in_map_iff. split.
  - intros (x & Hx & Hin). injection Hx as ->. exact Hin.
  - intros Hin. exists p. tauto.
Qed.

Lemma unique_employee_id (d : db) (p q : profiles.row) (e : text) :
  unique_columns d (Profile p) = Ok tt ->
  In q (profiles d) ->
  profiles.employee_id p = Some e -> profiles.employee_id q = Some e ->
  profiles.id q = profiles.id p.
Proof.
  unfold unique_columns. intros Huq Hin Hp Hq.
  destruct (existsb _ (profiles d)) eqn:E; [discriminate Huq |].
  pose proof (existsb_false _ _ E q Hin) as H. simpl in H.
  rewrite Hp, Hq in H. simpl in H. rewrite String.eqb_refl in H. simpl in H.
  rewrite andb_true_r in H. apply negb_false_iff in H. apply N.eqb_eq. exact H.
Qed.

Lemma exec_employee_ids (s : session) (d : db) (q : statement) (d' : db)
    (evs : list row_event) :
  exec s d q = Ok (d', evs) -> keys_ok d' -> employee_ids_ok d -> employee_ids_ok d'.
Proof.
  intros H [Hkeys _] IH x y e Hx Hy Ex Ey.
  specialize (Hkeys t_profiles). rewrite profile_ids in Hkeys.
  pose proof Hx as Hx'. pose proof Hy as Hy'.
  apply in_profiles_rows in Hx', Hy'.
  destruct (exec_rows_origin _ _ _ _ _ _ _ H Hx')
    as [Hxo | (r & Hr & Htx & _ & Hux & _)];
    destruct (exec_rows_origin _ _ _ _ _ _ _ H Hy')
      as [Hyo | (r' & Hr' & Hty & _ & Huy & _)].
  - apply in_profiles_rows in Hxo, Hyo. exact (IH x y e Hxo Hyo Ex Ey).
  - apply in_profiles_rows in Hxo.
    apply (same_key_same_row profiles.id (profiles d')); trivial.
    exact (unique_employee_id d y x e Huy Hxo Ey Ex).
  - apply in_profiles_rows in Hyo.
    apply (same_key_same_row profiles.id (profiles d')); trivial.
    symmetry. exact (unique_employee_id d x y e Hux Hyo Ex Ey).
  - assert (r = r') by (destruct Hr as [-> | ->], Hr' as [E' | E']; congruence).
    subst r'. rewrite Htx in Hty. congruence.
Qed.

Lemma reachable_employee_ids (d : db) : reachable d -> employee_ids_ok d.
Proof.
  induction 1 as [| d u Hd IH | s d q Hd IH].
  - intros p q e [].
  - exact IH.
  - destruct (run_cases s d q) as [Heq | (evs & H)]; [rewrite Heq; exact IH |].
    eapply exec_employee_ids; [exact H | | exact IH].
    apply reachable_keys_ok. apply reach_run. exact Hd.
Qed.

(** * Further properties of the schema *)

(** ** Rows and their keys *)







(** ** Constraints as invariants *)



(** X5.  In every store the system can reach the primary keys hold: no two
    rows of a table, and no two audit records, have the same [id]; so
    every row of a table is the one its key finds. *)
Theorem primary_keys_hold (d : db) :
  reachable d ->
  keys_ok d
  /\ (forall t r, In r (rows t d) -> lookup t (row_id r) d = Some r).
Proof.
  intros Hd. apply reachable_keys_ok in Hd. split; [exact Hd |].
  intros t r Hin. apply find_by_key; [apply Hd | exact Hin].
Qed.

Lemma primary_keys_hold_witness :
  reachable Sample.bootstrapped
  /\ keys_ok Sample.bootstrapped
  /\ (forall t r, In r (rows t Sample.bootstrapped) ->
                  lookup t (row_id r) Sample.bootstrapped = Some r).
Proof.
  assert (H : reachable Sample.bootstrapped).
  { unfold Sample.bootstrapped. apply reach_run. apply reach_run.
    apply reach_sign_up. apply reach_empty. }
  split; [exact H | exact (primary_keys_hold Sample.bootstrapped H)].
Defined.

(** ** Row-level security *)

(** X6.  Under row-level security a principal that is not an admin can
    change one thing only: add a time entry of its own.  Whatever the
    statement, if it succeeds it has changed no row, or it has inserted one
    time entry whose [user_id] is the principal. *)
Theorem non_admin_writes_own_time_entries_only
    (s : session) (d : db) (q : statement) (d' : db) (evs : list row_event) :
  row_security s = true ->
  admin_session s d = false ->
  exec s d q = Ok (d', evs) ->
  (evs = [] /\ d' = d)
  \/ exists e e',
      q = Insert (TimeEntry e)
      /\ evs = [Inserted (TimeEntry e')]
      /\ time_entries.user_id e' = auth_uid s
      /\ auth_uid s <> None.
Proof.
  intros Hrs Hna H. apply exec_store in H.
  destruct H as [(_ & -> & ->) | (ev & children & recs & Ht & -> & _ & Hcases & _)];
    [left; split; reflexivity |].
  right. destruct q as [r | r | t k].
  - pose proof Ht as Ht'. apply target_insert_iff in Ht.
    destruct Ht as (r' & Hty & Hrls & _ & _ & _ & _ & Hev). injection Hev as ->.
    rewrite rls_with_check_cases, Hrs, Hna in Hrls by (left; reflexivity).
    destruct r' as [? | e' | ? | ? | ?]; try discriminate Hrls.
    destruct r as [? | e | ? | ? | ?];
      try (apply typed_table_of in Hty; destruct Hty as [Hty _]; discriminate Hty).
    simpl in Hrls. apply sql_eq_uuid_true in Hrls. destruct Hrls as [Heq Hsome].
    destruct Hcases as [-> | (p & Hp)]; [| discriminate Hp].
    exists e, e'. repeat split; trivial. symmetry; exact Heq.
  - exfalso. apply target_update in Ht. destruct Ht as (old & r' & _ & _ & _ & Hrls & _).
    rewrite rls_using_cases, Hrs, Hna in Hrls by (left; reflexivity).
    destruct old; discriminate Hrls.
  - exfalso. apply target_delete in Ht. destruct Ht as (old & _ & _ & Hrls).
    rewrite rls_using_cases, Hrs, Hna in Hrls by (right; reflexivity).
    destruct old; discriminate Hrls.
Qed.

Lemma non_admin_writes_own_time_entries_only_witness :
  exists d' evs,
    row_security Sample.as_employee = true
    /\ admin_session Sample.as_employee Sample.store = false
    /\ exec Sample.as_employee Sample.store
            (Insert (TimeEntry (Sample.clock_in 2%N "1.2.3.4"))) = Ok (d', evs)
    /\ ((evs = [] /\ d' = Sample.store)
        \/ exists e e',
            Insert (TimeEntry (Sample.clock_in 2%N "1.2.3.4")) = Insert (TimeEntry e)
            /\ evs = [Inserted (TimeEntry e')]
            /\ time_entries.user_id e' = auth_uid Sample.as_employee
            /\ auth_uid Sample.as_employee <> None).
Proof.
  eexists. eexists. split; [reflexivity |]. split; [reflexivity |].
  split; [vm_compute; reflexivity |].
  eapply (non_admin_writes_own_time_entries_only Sample.as_employee Sample.store);
    [reflexivity | reflexivity | vm_compute; reflexivity].
Defined.



(** ** References *)

(** X8.  In every store the system can reach the references hold: every
    profile is a user of [auth.users], and every [user_id] and [created_by]
    that is not NULL, of a time entry, a schedule, a whitelist entry, a
    fence or an audit record, is the [id] of a profile of the store. *)
Theorem references_hold (d : db) :
  reachable d ->
  (forall p, In p (profiles d) -> In (profiles.id p) (auth_users d))
  /\ (forall t x u, In x (rows t d) ->
                    In (Some u) (cascading_refs x ++ restricting_refs x) ->
                    exists p, In p (profiles d) /\ profiles.id p = u)
  /\ (forall a u, In a (audit_logs d) -> audit_logs.user_id a = Some u ->
                  exists p, In p (profiles d) /\ profiles.id p = u).
Proof.
  intros Hd. apply reachable_references_ok in Hd. destruct Hd as [Hrows Haud].
  assert (Hp : forall u, In u (map row_id (rows t_profiles d)) ->
                         exists p, In p (profiles d) /\ profiles.id p = u).
  { intros u Hu. simpl in Hu. rewrite map_map in Hu. apply in_map_iff in Hu.
    destruct Hu as (p & Hp & Hin). exists p. tauto. }
  split; [| split].
  - intros p Hin.
    assert (Hr : In (Profile p) (rows t_profiles d)) by (apply in_map; exact Hin).
    apply Hrows in Hr. apply foreign_keys_ok in Hr. destruct Hr as [Hr _].
    apply Hr. reflexivity.
  - intros t x u Hin Hu. apply Hp. apply Hrows in Hin.
    apply foreign_keys_ok in Hin. destruct Hin as [_ Hrefs].
    specialize (Hrefs _ Hu). rewrite references_profile_true in Hrefs.
    apply Hrefs. reflexivity.
  - intros a u Hin Hu. apply Hp. rewrite Forall_forall in Haud. specialize (Haud a Hin).
    rewrite references_profile_true in Haud. apply Haud. exact Hu.
Qed.

Lemma references_hold_witness :
  reachable Sample.bootstrapped
  /\ (forall a u, In a (audit_logs Sample.bootstrapped) ->
                  audit_logs.user_id a = Some u ->
                  exists p, In p (profiles Sample.bootstrapped) /\ profiles.id p = u).
Proof.
  assert (H : reachable Sample.bootstrapped).
  { unfold Sample.bootstrapped. apply reach_run. apply reach_run.
    apply reach_sign_up. apply reach_empty. }
  split; [exact H |].
  exact (proj2 (proj2 (references_hold Sample.bootstrapped H))).
Defined.





(** ** The trail *)

(** X11.  No statement on the protected tables removes or rewrites an
    audit record: after any sequence of statements, in any sessions, the
    trail is the trail before followed by new records. *)
Theorem audit_trail_only_grows (qs : list (session * statement)) (d : db) :
  exists recs, audit_logs (run_all qs d) = audit_logs d ++ recs.
Proof. apply run_all_audit_logs. Qed.

(** ** The location authorizer *)

(** X12.  Adding to the policy never revokes: when the authorizer returns
    true, it still does after any whitelist entries and any fences have
    been added. *)
Theorem authorizer_is_monotone
    (d d' : db) (lat lon : option numeric) (ip : option text) :
  incl (ip_whitelist d) (ip_whitelist d') ->
  incl (geo_fences d) (geo_fences d') ->
  check_location_restrictions d lat lon ip = Some true ->
  check_location_restrictions d' lat lon ip = Some true.
Proof.
  unfold check_location_restrictions. intros Hw Hg H.
  destruct (v_ip_allowed d ip) eqn:Eip; [| discriminate H].
  destruct (v_geo_allowed d lat lon) eqn:Egeo; [| discriminate H].
  apply v_ip_allowed_iff in Eip. destruct Eip as (w & Hin & Hip).
  apply v_geo_allowed_iff in Egeo. destruct Egeo as (g & la & lo & Hgin & Hla & Hlo & Hr).
  assert (Eip' : v_ip_allowed d' ip = true).
  { apply v_ip_allowed_iff. exists w. split; [apply Hw; exact Hin | exact Hip]. }
  assert (Egeo' : v_geo_allowed d' lat lon = true).
  { apply v_geo_allowed_iff. exists g, la, lo. split; [apply Hg; exact Hgin | tauto]. }
  rewrite Eip', Egeo'. reflexivity.
Qed.

Lemma authorizer_is_monotone_witness :
  incl (ip_whitelist Sample.store)
       (ip_whitelist (with_geo_fences [Sample.inverted; Sample.office] Sample.store))
  /\ incl (geo_fences Sample.store)
          (geo_fences (with_geo_fences [Sample.inverted; Sample.office] Sample.store))
  /\ check_location_restrictions Sample.store (Some 10%Q) (Some 10%Q) (Some "1.2.3.4")
     = Some true
  /\ check_location_restrictions
       (with_geo_fences [Sample.inverted; Sample.office] Sample.store)
       (Some 10%Q) (Some 10%Q) (Some "1.2.3.4")
     = Some true.
Proof.
  assert (Hw : incl (ip_whitelist Sample.store)
                    (ip_whitelist (with_geo_fences [Sample.inverted; Sample.office]
                                     Sample.store))) by apply incl_refl.
  assert (Hg : incl (geo_fences Sample.store)
                    (geo_fences (with_geo_fences [Sample.inverted; Sample.office]
                                   Sample.store)))
    by (intros g [<- | []]; right; left; reflexivity).
  assert (H : check_location_restrictions Sample.store (Some 10%Q) (Some 10%Q)
                (Some "1.2.3.4") = Some true) by reflexivity.
  split; [exact Hw |]. split; [exact Hg |]. split; [exact H |].
  exact (authorizer_is_monotone _ _ _ _ _ Hw Hg H).
Defined.



(** ** Decimal columns *)



(** * The pages *)

(** X15.  Redirects do not chain: whatever the signed-in state and the
    location, what is rendered after the redirect, if there was one, has
    no redirect of its own.  If a route matched, the settled screen is the
    login page for a visitor and the dashboard's frame for a signed-in
    user. *)
Theorem redirects_settle
    (matchPath : text -> text -> bool) (a : UI.auth) (pathname : text) :
  UI.matching matchPath ->
  UI.redirect (UI.App matchPath a (UI.settle matchPath a pathname)) = None
  /\ (UI.App matchPath a pathname <> UI.Null ->
      match UI.user a with
      | None => UI.App matchPath a (UI.settle matchPath a pathname)
                = UI.AuthFrame "TimeTrack" (UI.Leaf UI.Login)
      | Some _ => exists nav outlet,
          UI.App matchPath a (UI.settle matchPath a pathname)
          = UI.DashboardFrame nav outlet
      end).
Proof.
  intros Hm. unfold UI.settle.
  destruct (App_cases matchPath a pathname) as [E | (r & Hin & _ & E)].
  - rewrite E. simpl. rewrite E. split; [reflexivity | intros H; contradiction H; reflexivity].
  - rewrite E. simpl in Hin.
    unfold UI.render_route, UI.AuthLayout, UI.DashboardLayout, UI.render_AdminPanel.
    destruct Hin as [<- | [<- | [<- | [<- | [<- | []]]]]]; simpl;
      destruct (UI.user a) as [u |] eqn:U; simpl;
      try destruct (UI.strict_eq (UI.role a) "admin") eqn:R; simpl;
      repeat progress
        (rewrite ?E, ?(App_root matchPath a Hm), ?(App_login matchPath a Hm);
         unfold UI.render_route, UI.AuthLayout, UI.DashboardLayout, UI.render_AdminPanel;
         simpl; rewrite ?U, ?R; simpl);
      (split; [reflexivity | intros _; try reflexivity; eexists; eexists; reflexivity]).
Qed.

Lemma redirects_settle_witness :
  UI.matching String.eqb
  /\ UI.settle String.eqb (UI.mk_auth (Some 2%N) (Some Sample.employee)) "/admin" = "/"
  /\ UI.redirect (UI.App String.eqb (UI.mk_auth (Some 2%N) (Some Sample.employee)) "/")
     = None.
Proof.
  assert (H : UI.matching String.eqb).
  { split.
    - intros p _. apply String.eqb_refl.
    - intros p q l _ _ Hp Hq. apply String.eqb_eq in Hp, Hq. congruence. }
  split; [exact H |]. split; [reflexivity |].
  exact (proj1 (redirects_settle String.eqb
                  (UI.mk_auth (Some 2%N) (Some Sample.employee)) "/admin" H)).
Defined.

(** X16.  Who sees what: the admin panel's heading is on the screen only
    of a signed-in user whose profile has role admin; the dashboard's frame
    only of a signed-in user, and its sidebar links to the admin panel
    exactly when the panel would open; the login frame only of a
    visitor. *)
Theorem admin_panel_is_for_admins
    (matchPath : text -> text -> bool) (a : UI.auth) (pathname : text) :
  (In (UI.Heading "Admin Panel" []) (UI.shown (UI.App matchPath a pathname)) ->
   UI.user a <> None /\ UI.role a = Some "admin")
  /\ (forall nav outlet,
         In (UI.DashboardFrame nav outlet) (UI.shown (UI.App matchPath a pathname)) ->
         UI.user a <> None
         /\ (In "/admin" (map UI.to nav)
             <-> UI.render_AdminPanel a = UI.Heading "Admin Panel" []))
  /\ (forall title outlet,
         In (UI.AuthFrame title outlet) (UI.shown (UI.App matchPath a pathname)) ->
         UI.user a = None).
Proof.
  assert (Hlink : In "/admin" (map UI.to (map (UI.render_item pathname) (UI.navigation a)))
                  <-> UI.render_AdminPanel a = UI.Heading "Admin Panel" []).
  { unfold UI.navigation, UI.render_AdminPanel.
    destruct (UI.strict_eq (UI.role a) "admin"); simpl; split; intros H;
      try reflexivity; try discriminate H; try tauto.
    destruct H as [H | [H | [H | []]]]; discriminate H. }
  destruct (App_cases matchPath a pathname) as [E | (r & Hin & _ & E)]; rewrite E.
  - simpl. repeat split; intros;
      match goal with H : _ \/ False |- _ => destruct H as [H | []]; discriminate H end.
  - remember (map (UI.render_item pathname) (UI.navigation a)) as nav0 eqn:Hnav.
    assert (Hshown : forall e,
               In e (UI.shown (UI.render_route a pathname r)) ->
               (UI.user a = None /\ (e = UI.Navigate "/login" \/ e = UI.Leaf UI.Login
                                        \/ exists o, e = UI.AuthFrame "TimeTrack" o))
               \/ (UI.user a <> None
                   /\ (e = UI.DashboardFrame nav0 (UI.render_page a (UI.route_page r))
                       \/ e = UI.Navigate "/"
                       \/ (exists p, e = UI.Leaf p)
                       \/ (exists t, e = UI.Heading "Dashboard" t)
                       \/ (e = UI.Heading "Admin Panel" [] /\ UI.role a = Some "admin")))).
    { intros e. simpl in Hin.
      unfold UI.render_route, UI.AuthLayout, UI.DashboardLayout. rewrite <- Hnav.
      destruct Hin as [<- | [<- | [<- | [<- | [<- | []]]]]]; simpl;
        unfold UI.render_AdminPanel, UI.render_Dashboard;
        destruct (UI.user a) as [u |] eqn:U; simpl;
        try destruct (UI.strict_eq (UI.role a) "admin") eqn:R; simpl;
        intros H; repeat (destruct H as [<- | H]); try contradiction;
        try (left; split; [reflexivity |]; eauto; fail);
        right; (split; [discriminate |]); eauto 8.
      right; right; right; right. split; [reflexivity | apply strict_eq_true; exact R]. }
    split; [| split].
    + intros H. apply Hshown in H.
      destruct H as [[_ [H | [H | (o & H)]]]
                    | [Hu [H | [H | [(p & H) | [(t & H) | [_ Hr]]]]]]];
        try discriminate H. split; assumption.
    + intros nav outlet H. apply Hshown in H.
      destruct H as [[_ [H | [H | (o & H)]]]
                    | [Hu [H | [H | [(p & H) | [(t & H) | [H _]]]]]]];
        try discriminate H.
      injection H as -> _. split; assumption.
    + intros title outlet H. apply Hshown in H.
      destruct H as [[Hu _]
                    | [Hu [H | [H | [(p & H) | [(t & H) | [H _]]]]]]];
        try discriminate H. exact Hu.
Qed.

Lemma admin_panel_is_for_admins_witness :
  In (UI.Heading "Admin Panel" [])
     (UI.shown (UI.App String.eqb (UI.mk_auth (Some 1%N) (Some Sample.admin)) "/admin"))
  /\ UI.user (UI.mk_auth (Some 1%N) (Some Sample.admin)) <> None
  /\ UI.role (UI.mk_auth (Some 1%N) (Some Sample.admin)) = Some "admin".
Proof.
  assert (H : In (UI.Heading "Admin Panel" [])
                (UI.shown (UI.App String.eqb (UI.mk_auth (Some 1%N) (Some Sample.admin))
                             "/admin")))
    by (right; left; reflexivity).
  split; [exact H |].
  exact (proj1 (admin_panel_is_for_admins String.eqb
                  (UI.mk_auth (Some 1%N) (Some Sample.admin)) "/admin") H).
Defined.

(** X17.  The sidebar marks one link as the current page when the
    location is, character for character, the target of one of its links,
    and none otherwise; never two. *)
Theorem one_link_is_current (a : UI.auth) (pathname : text) :
  List.length (filter UI.current (map (UI.render_item pathname) (UI.navigation a)))
  = if existsb (String.eqb pathname) (map UI.href (UI.navigation a))
    then 1%nat else 0%nat.
Proof.
  unfold UI.navigation, UI.render_item.
  destruct (UI.strict_eq (UI.role a) "admin"); simpl;
    destruct (String.eqb_spec pathname "/") as [-> | _]; simpl; try reflexivity;
    destruct (String.eqb_spec pathname "/time-entry") as [-> | _]; simpl; try reflexivity;
    destruct (String.eqb_spec pathname "/schedule") as [-> | _]; simpl; try reflexivity;
    destruct (String.eqb_spec pathname "/admin") as [-> | _]; simpl; reflexivity.
Qed.

(** X18.  The dashboard always greets somebody: the name in its welcome
    line is the profile's [full_name], or [User] when there is no profile,
    no name or an empty one; it is never empty. *)
Theorem dashboard_greets_by_name (a : UI.auth) :
  exists n,
    UI.render_Dashboard a
    = UI.Heading "Dashboard" [("Welcome back, " ++ n ++ "!")%string]
    /\ n <> ""
    /\ (UI.full_name a = Some n
        \/ (n = "User" /\ (UI.full_name a = None \/ UI.full_name a = Some ""))).
Proof.
  exists (UI.or_else (UI.full_name a) "User").
  split; [reflexivity |]. split; [apply or_else_not_empty; discriminate |].
  destruct (UI.full_name a) as [v |]; simpl; [| right; tauto].
  destruct (String.eqb_spec v "") as [-> | _]; [right; tauto | left; reflexivity].
Qed.



(** * Reading under row-level security *)



(** * The employee ids *)

(** X21.  In every store the system can reach no two profiles have the
    same employee id. *)
Theorem employee_ids_are_unique (d : db) (p q : profiles.row) (e : text) :
  reachable d ->
  In p (profiles d) -> In q (profiles d) ->
  profiles.employee_id p = Some e -> profiles.employee_id q = Some e ->
  p = q.
Proof. intros Hd. exact (reachable_employee_ids d Hd p q e). Qed.

Lemma employee_ids_are_unique_witness :
  reachable Staff.hired
  /\ In Staff.clerk (profiles Staff.hired)
  /\ profiles.employee_id Staff.clerk = Some "E-1"
  /\ Staff.clerk = Staff.clerk.
Proof.
  assert (H : reachable Staff.hired).
  { unfold Staff.hired. apply reach_run. apply reach_sign_up. apply reach_empty. }
  assert (Hin : In Staff.clerk (profiles Staff.hired)) by (left; reflexivity).
  split; [exact H |]. split; [exact Hin |]. split; [reflexivity |].
  exact (employee_ids_are_unique Staff.hired Staff.clerk Staff.clerk "E-1"
           H Hin Hin eq_refl eq_refl).
Defined.

(** * Who can write *)

(** X22.  Whoever changes a row has a profile.  The audit record of a row
    change names the acting principal, and [audit_logs.user_id] references
    [profiles]: a statement of a session with a principal that changes a
    row goes through only if the store it leaves has that principal's
    profile. *)
Theorem writers_have_profiles
    (s : session) (d : db) (q : statement) (d' : db) (evs : list row_event)
    (u : uuid) :
  exec s d q = Ok (d', evs) ->
  evs <> [] ->
  auth_uid s = Some u ->
  exists p, In p (profiles d') /\ profiles.id p = u.
Proof.
  intros H Hevs Hu. pose proof (exec_actor _ _ _ _ _ H Hevs) as Ha.
  rewrite Hu in Ha. rewrite references_profile_true in Ha.
  specialize (Ha u eq_refl). rewrite profile_ids in Ha.
  apply in_map_iff in Ha. destruct Ha as (p & Hp & Hin). exists p. tauto.
Qed.

Lemma writers_have_profiles_witness :
  exists d' evs,
    exec Sample.as_employee Sample.store
         (Insert (TimeEntry (Sample.clock_in 2%N "1.2.3.4"))) = Ok (d', evs)
    /\ evs <> []
    /\ exists p, In p (profiles d') /\ profiles.id p = 2%N.
Proof.
  destruct (exec Sample.as_employee Sample.store
              (Insert (TimeEntry (Sample.clock_in 2%N "1.2.3.4"))))
    as [[d' evs] | err] eqn:E; [| vm_compute in E; discriminate E].
  assert (Hevs : evs <> [])
    by (intros ->; vm_compute in E; discriminate E).
  exists d', evs. split; [reflexivity |]. split; [exact Hevs |].
  exact (writers_have_profiles Sample.as_employee Sample.store _ d' evs 2%N
           E Hevs eq_refl).
Defined.
